(** * Shallow embedding of the chat session reconciler of soso-chatting

    Sources embedded here:
    - [usePusher] (hooks/usePusher.ts, several revisions in src/unnamed/part_000
      and src/unnamed/part_002): the [new-message], [user-joined] handlers, the
      buffered-message handler of the service worker, [syncWithServer],
      [cleanupTypingUsers], [sendMessage] and [initializePusher];
    - [MessageBuffer] (utils/messageBuffer.ts, src/unnamed/part_013);
    - lib/pusher-singleton.ts (second revision: delayed cleanup).

    Timestamps.  The source stores ISO strings and compares them through
    [new Date(s).getTime()].  We keep the result of that parse: [Some ms] for a
    valid date and [None] for [NaN]; every comparison with [NaN] is false in
    JavaScript, which is what [None] gives below. *)

From Stdlib Require Import String Ascii List ZArith Bool Lia Arith.
From Stdlib Require Import Permutation Sorted.
Import ListNotations.
Open Scope string_scope.
Open Scope list_scope.

(* ------------------------------------------------------------------------- *)
(** ** Data model (types/chat.ts) *)

Record Message := mkMessage {
  id : string;
  text : string;
  userId : string;
  userName : string;
  userAvatar : string;
  timestamp : option Z;          (* new Date(timestamp).getTime() *)
  isSystemMessage : bool
}.

(** [Math.abs(a - b) < w] on two parsed dates; [NaN] makes it false. *)
Definition abs_diff_lt (a b : option Z) (w : Z) : bool :=
  match a, b with
  | Some x, Some y => (Z.abs (x - y) <? w)%Z
  | _, _ => false
  end.

(** [arr.length > n ? arr.slice(-n) : arr] *)
Definition slice_last {A} (n : nat) (l : list A) : list A :=
  if Nat.ltb n (length l) then skipn (length l - n) l else l.

Definition MAX_MESSAGES : nat := 100.
Definition DUPLICATE_WINDOW_MS : Z := 5000.

(* ------------------------------------------------------------------------- *)
(** ** [new-message] handler, part_000 revision of usePusher

    [setMessages(prev => ...)]: the handler returns [prev] for a duplicate and
    the capped [[...prev, message]] otherwise.  The boolean is the outcome of
    the duplicate check ([!isDuplicate]), i.e. whether the message was
    accepted. *)

Definition isDuplicateById (prev : list Message) (m : Message) : bool :=
  existsb (fun e => String.eqb e.(id) m.(id)) prev.

Definition isDuplicateByContent (prev : list Message) (m : Message) : bool :=
  existsb (fun e => String.eqb e.(text) m.(text)
                    && String.eqb e.(userId) m.(userId)
                    && abs_diff_lt e.(timestamp) m.(timestamp) DUPLICATE_WINDOW_MS)
          prev.

Definition on_new_message_v1 (prev : list Message) (m : Message)
  : bool * list Message :=
  let isDuplicate := isDuplicateById prev m || isDuplicateByContent prev m in
  if negb isDuplicate
  then (true, slice_last MAX_MESSAGES (prev ++ [m]))
  else (false, prev).

(* ------------------------------------------------------------------------- *)
(** ** [MessageBuffer] (utils/messageBuffer.ts) *)

Record BufferedMessage := mkBuffered {
  b_id : string;
  b_text : string;
  b_userId : string;
  b_userName : string;
  b_userAvatar : string;
  b_timestamp : option Z;
  receivedAt : Z;
  isRead : bool
}.

Record MessageBuffer := mkMessageBuffer {
  buffer : list BufferedMessage;
  isPageVisible : bool
}.

Definition maxBufferSize : nat := 50.

(** [addMessage(message)]; [now] is [Date.now()]. *)
Definition addMessage (now : Z) (mb : MessageBuffer) (message : Message)
  : bool * MessageBuffer :=
  let isDuplicate :=
    existsb (fun buffered =>
               String.eqb buffered.(b_id) message.(id)
               || (String.eqb buffered.(b_text) message.(text)
                   && String.eqb buffered.(b_userId) message.(userId)
                   && abs_diff_lt buffered.(b_timestamp) message.(timestamp) 5000))
            mb.(buffer) in
  if isDuplicate then (false, mb)
  else
    let bufferedMessage :=
      mkBuffered message.(id) message.(text) message.(userId) message.(userName)
                 message.(userAvatar) message.(timestamp) now mb.(isPageVisible) in
    let pushed := mb.(buffer) ++ [bufferedMessage] in
    let capped := if Nat.ltb maxBufferSize (length pushed)
                  then skipn (length pushed - maxBufferSize) pushed
                  else pushed in
    (true, mkMessageBuffer capped mb.(isPageVisible)).

(** The message fields of a buffered entry. *)
Definition buffered_view (b : BufferedMessage) : Message :=
  mkMessage b.(b_id) b.(b_text) b.(b_userId) b.(b_userName) b.(b_userAvatar)
            b.(b_timestamp) false.

(** The identity invariant of the spec (section 3), stated on two messages. *)
Definition same_logical (a b : Message) : Prop :=
  a.(id) = b.(id)
  \/ (a.(userId) = b.(userId) /\ a.(text) = b.(text)
      /\ exists x y, a.(timestamp) = Some x /\ b.(timestamp) = Some y
                     /\ (Z.abs (x - y) < DUPLICATE_WINDOW_MS)%Z).

(** A sequence of [new-message] deliveries fed to the part_000 handler:
    the messages it accepted, in order, and the final log. *)
Fixpoint run_v1 (log : list Message) (cs : list Message)
  : list Message * list Message :=
  match cs with
  | [] => ([], log)
  | c :: cs' =>
      let '(ok, log') := on_new_message_v1 log c in
      let '(acc, fin) := run_v1 log' cs' in
      ((if ok then c :: acc else acc), fin)
  end.

(** Sample deliveries: distinct ids and timestamps 10 s apart. *)
Fixpoint str_rep (n : nat) : string :=
  match n with
  | O => EmptyString
  | S k => String "a"%char (str_rep k)
  end.

Definition sample_msg (n : nat) : Message :=
  mkMessage (str_rep n) "hello" "u1" "Kim" "/images/cat.jpg"
            (Some (Z.of_nat n * 10000)%Z) false.

(* ------------------------------------------------------------------------- *)
(** ** Typing presence (usePusher, part_002) *)

Record TypingUser := mkTypingUser {
  t_id : string;
  t_name : string;
  startedAt : option Z          (* new Date(user.startedAt).getTime() *)
}.

(** [updated[prev.findIndex(user => user.id === typingUser.id)] = typingUser] *)
Fixpoint replace_first_typing (prev : list TypingUser) (typingUser : TypingUser)
  : list TypingUser :=
  match prev with
  | [] => []
  | u :: rest => if String.eqb u.(t_id) typingUser.(t_id)
                 then typingUser :: rest
                 else u :: replace_first_typing rest typingUser
  end.

(** [channel.bind('user-typing', ...)]; [currentUserId] is
    [currentUserRef.current?.id]. *)
Definition on_user_typing (currentUserId : option string)
           (prev : list TypingUser) (typingUser : TypingUser) : list TypingUser :=
  if match currentUserId with
     | Some c => String.eqb typingUser.(t_id) c
     | None => false
     end
  then prev
  else if existsb (fun u => String.eqb u.(t_id) typingUser.(t_id)) prev
  then replace_first_typing prev typingUser
  else prev ++ [typingUser].

(** [channel.bind('user-stopped-typing', ...)] *)
Definition on_user_stopped_typing (prev : list TypingUser) (userId : string)
  : list TypingUser :=
  filter (fun u => negb (String.eqb u.(t_id) userId)) prev.

(** [cleanupTypingUsers], run every second by [setInterval]; [now] is
    [new Date().getTime()].  [now - NaN < 5000] is false. *)
Definition cleanupTypingUsers (now : Z) (prev : list TypingUser) : list TypingUser :=
  filter (fun user =>
            match user.(startedAt) with
            | Some startTime => (now - startTime <? 5000)%Z
            | None => false
            end) prev.

(* ------------------------------------------------------------------------- *)
(** ** [sendMessage] (usePusher, part_002) *)

(** [String.prototype.includes] *)
Fixpoint includes (hay needle : string) : bool :=
  String.prefix needle hay
  || match hay with
     | EmptyString => false
     | String _ rest => includes rest needle
     end.

(** The ASCII white space and line terminators removed by
    [String.prototype.trim]. *)
Definition is_js_ws (c : ascii) : bool :=
  match nat_of_ascii c with
  | 9 | 10 | 11 | 12 | 13 | 32 => true
  | _ => false
  end.

Fixpoint drop_ws (l : list ascii) : list ascii :=
  match l with
  | [] => []
  | c :: r => if is_js_ws c then drop_ws r else l
  end.

Definition trim (s : string) : string :=
  string_of_list_ascii (rev (drop_ws (rev (drop_ws (list_ascii_of_string s))))).

(** The [message] argument as a runtime value ([typeof message]). *)
Inductive JsArg := JsString (s : string) | JsNonString (truthy : bool).

(** The [user] argument; a missing field is [None]. *)
Record UserArg := mkUserArg {
  ua_id : option string;
  ua_name : option string;
  ua_avatar : option string;
  ua_joinedAt : option string
}.

(** JavaScript truthiness of an optional string field. *)
Definition truthy (o : option string) : bool :=
  match o with
  | Some s => negb (String.eqb s EmptyString)
  | None => false
  end.

(** The body of the [POST /api/pusher] request. *)
Record SendPayload := mkSendPayload {
  p_message : string;
  p_user : UserArg;
  p_messageId : string
}.

Inductive SendResult := SendOk | SendFailed (error : string).

(** The effects of one [sendMessage] call: the requests it issues to the backing
    API and how the returned promise settles.  [connected] is
    [isPusherConnected()], [response_ok] is [response.ok] of the request, if one
    is made.  [markMessageFailed] on an id that was never passed to
    [startMessageTracking] returns at once, so a failure before the tracking
    step schedules no retry. *)
Record SendEffects := mkSendEffects {
  requests : list SendPayload;
  result : SendResult
}.

(** The rethrow of the outer [catch]. *)
Definition remap_send_error (errorMessage : string) : string :=
  if includes errorMessage "timeout"%string || includes errorMessage "네트워크"%string
  then "모바일 네트워크 오류: 연결이 불안정합니다. 다시 시도해주세요."%string
  else if includes errorMessage "Server error"%string
  then "서버 오류가 발생했습니다. 잠시 후 다시 시도해주세요."%string
  else if includes errorMessage "Invalid"%string
  then "잘못된 데이터입니다. 페이지를 새로고침해주세요."%string
  else if includes errorMessage "Not connected"%string
  then "연결이 끊어졌습니다. 인터넷 연결을 확인해주세요."%string
  else errorMessage.

(** Inner body of the [try] of [sendMessage]: [inr] is a thrown error. *)
Definition sendMessage_try (connected response_ok : bool) (messageId : string)
           (message : JsArg) (user : option UserArg)
  : list SendPayload * (unit + string) :=
  match message with
  | JsNonString _ => ([], inr "Invalid message: empty or non-string"%string)
  | JsString msg =>
    if String.eqb msg EmptyString || Nat.eqb (String.length (trim msg)) 0
    then ([], inr "Invalid message: empty or non-string"%string)
    else
      match user with
      | None => ([], inr "Invalid user data: missing required fields"%string)
      | Some u =>
        if negb (truthy u.(ua_id)) || negb (truthy u.(ua_name)) || negb (truthy u.(ua_avatar))
        then ([], inr "Invalid user data: missing required fields"%string)
        else if Nat.ltb 1000 (String.length msg)
        then ([], inr "Message too long: maximum 1000 characters"%string)
        else if negb connected
        then ([], inr "Not connected to Pusher"%string)
        else
          let payload := mkSendPayload (trim msg)
                           (mkUserArg u.(ua_id) u.(ua_name) u.(ua_avatar) u.(ua_joinedAt))
                           messageId in
          if response_ok then ([payload], inl tt)
          else ([payload], inr "Server error"%string)
      end
  end.

Definition sendMessage (connected response_ok : bool) (messageId : string)
           (message : JsArg) (user : option UserArg) : SendEffects :=
  let '(reqs, r) := sendMessage_try connected response_ok messageId message user in
  match r with
  | inl _ => mkSendEffects reqs SendOk
  | inr e => mkSendEffects reqs (SendFailed (remap_send_error e))
  end.

(** The validation failures named by the spec (section 6). *)
Definition invalid_send_input (message : JsArg) (user : option UserArg) : Prop :=
  match message with
  | JsNonString _ => True
  | JsString msg =>
      msg = EmptyString \/ (1000 < String.length msg)%nat
      \/ match user with
         | None => True
         | Some u => truthy u.(ua_id) = false \/ truthy u.(ua_name) = false
                     \/ truthy u.(ua_avatar) = false
         end
  end.

(* ------------------------------------------------------------------------- *)
(** ** Roster (usePusher, part_002) *)

Record User := mkUser {
  u_id : string;
  name : string;
  avatar : string;
  isOnline : bool;
  joinedAt : string;
  leftAt : option string
}.

Definition id_in (x : string) (ids : list string) : bool :=
  existsb (String.eqb x) ids.

(** [user.id !== currentUserId] and [u.id === currentUserId], where
    [currentUserId] is [currentUserRef.current?.id] (possibly undefined). *)
Definition is_current (currentUserId : option string) (x : string) : bool :=
  match currentUserId with
  | Some c => String.eqb x c
  | None => false
  end.

(** The [setOnlineUsers(prev => ...)] update of [syncWithServer], on the
    [data.activeUsers] of a successful response. *)
Definition sync_update (currentUserId : option string) (activeUsers prev : list User)
  : list User :=
  let serverUsers := filter (fun user => negb (is_current currentUserId user.(u_id)))
                            activeUsers in
  let localUserIds := map u_id prev in
  let serverUserIds := map u_id serverUsers in
  let usersToAdd := filter (fun u => negb (id_in u.(u_id) localUserIds)) serverUsers in
  let usersToKeep := filter (fun u => id_in u.(u_id) serverUserIds
                                      || is_current currentUserId u.(u_id)) prev in
  usersToKeep ++ usersToAdd.

(** [syncWithServer]: [response] is [Some data.activeUsers] when the request
    succeeded with [data.success] and [data.activeUsers]; otherwise the roster
    is left alone. *)
Definition syncWithServer (currentUserId : option string) (response : option (list User))
           (prev : list User) : list User :=
  match response with
  | Some activeUsers => sync_update currentUserId activeUsers prev
  | None => prev
  end.

(** [{ ...existingUser, ...user }]: the event's fields win; an absent optional
    field of the event keeps the existing one. *)
Definition merge_user (existingUser user : User) : User :=
  mkUser user.(u_id) user.(name) user.(avatar) user.(isOnline) user.(joinedAt)
         (match user.(leftAt) with
          | Some l => Some l
          | None => existingUser.(leftAt)
          end).

(** [channel.bind('user-joined', ...)].  The presence test
    [isUserAlreadyOnline(user.id)] reads [onlineUsers], the state of the render
    whose [initializePusher] bound the handler ([onlineUsersAtBind]); the
    update itself is functional and reads [prev]. *)
Definition on_user_joined (onlineUsersAtBind : list User) (prev : list User)
           (user : User) : list User :=
  if negb (existsb (fun u => String.eqb u.(u_id) user.(u_id)) onlineUsersAtBind)
  then prev ++ [user]
  else map (fun existingUser =>
              if String.eqb existingUser.(u_id) user.(u_id)
              then merge_user existingUser user else existingUser) prev.

(** Roster state of one mounted [usePusher]: [onlineUsers] and the
    [user-joined] handler bound on the channel, given by the [onlineUsers] its
    closure captured.  Handlers are bound once, on a freshly created instance
    ([if (!isReused)]); a reused instance keeps the handler bound earlier. *)
Record RosterState := mkRosterState {
  onlineUsers : list User;
  joinedHandler : option (list User)
}.

Inductive RosterEvent :=
| BindHandlers                   (* initializePusher on a fresh instance *)
| UserJoinedEvent (u : User)     (* 'user-joined' delivered on the channel *)
| UserLeftEvent (u : User).      (* 'user-left' delivered on the channel *)

Definition roster_step (st : RosterState) (ev : RosterEvent) : RosterState :=
  match ev with
  | BindHandlers =>
      match st.(joinedHandler) with
      | None => mkRosterState st.(onlineUsers) (Some st.(onlineUsers))
      | Some _ => st
      end
  | UserJoinedEvent u =>
      match st.(joinedHandler) with
      | Some snap => mkRosterState (on_user_joined snap st.(onlineUsers) u)
                                   st.(joinedHandler)
      | None => st
      end
  | UserLeftEvent u =>
      match st.(joinedHandler) with
      | Some _ => mkRosterState (filter (fun x => negb (String.eqb x.(u_id) u.(u_id)))
                                        st.(onlineUsers)) st.(joinedHandler)
      | None => st
      end
  end.

Definition roster_run (st : RosterState) (evs : list RosterEvent) : RosterState :=
  fold_left roster_step evs st.

(** [useState<User[]>([])] and no handler bound yet. *)
Definition roster_init : RosterState := mkRosterState [] None.

Definition user_bob : User := mkUser "bob" "Bob" "/images/dog.jpg" true "2025-01-01T00:00:00.000Z" None.
Definition user_bob' : User := mkUser "bob" "Bobby" "/images/cat.jpg" true "2025-01-01T00:05:00.000Z" None.
Definition user_me : User := mkUser "me" "Me" "/images/cat.jpg" true "2025-01-01T00:00:00.000Z" None.

(* ------------------------------------------------------------------------- *)
(** ** [new-message] handler and buffered replay, part_002 revision *)

(** [const isSystemMessage = message.text && (...)] *)
Definition isSystemText (t : string) : bool :=
  negb (String.eqb t EmptyString)
  && (includes t "[SYSTEM]" || includes t "[ERROR]"
      || includes t "Application error:" || includes t "client-side exception").

Record LiveState := mkLiveState {
  msgBuffer : MessageBuffer;     (* the [messageBuffer] singleton *)
  messages : list Message        (* the [messages] state *)
}.

(** [channel.bind('new-message', ...)]: the system-text filter, then
    [addMessageToBuffer], then the id check against [prev] and the capped
    append.  Both branches that accept (with or without a notification) build
    the same capped list; notifications are not modelled. *)
Definition on_new_message_v2 (now : Z) (st : LiveState) (message : Message) : LiveState :=
  if isSystemText message.(text) then st
  else
    let '(wasAdded, mb') := addMessage now st.(msgBuffer) message in
    if wasAdded
    then mkLiveState mb'
           (if isDuplicateById st.(messages) message then st.(messages)
            else slice_last MAX_MESSAGES (st.(messages) ++ [message]))
    else mkLiveState mb' st.(messages).

(** [Array.prototype.sort] comparator of the replay:
    [getTime(a) - getTime(b)], a [NaN] result counting as [+0]. *)
Definition ts_compare (a b : Message) : Z :=
  match a.(timestamp), b.(timestamp) with
  | Some x, Some y => (x - y)%Z
  | _, _ => 0%Z
  end.

(** A stable sort (the ECMAScript sort is stable): insertion after every
    element that does not compare greater. *)
Fixpoint insert_sorted (x : Message) (l : list Message) : list Message :=
  match l with
  | [] => [x]
  | y :: ys => if (ts_compare x y <? 0)%Z then x :: y :: ys else y :: insert_sorted x ys
  end.

Definition sort_by_timestamp (l : list Message) : list Message :=
  fold_left (fun acc x => insert_sorted x acc) l [].

(** The [BUFFERED_MESSAGES] branch of the service-worker message listener. *)
Definition on_buffered_messages (prev buffered : list Message) : list Message :=
  let newMessages :=
    fold_left (fun acc msg =>
                 if existsb (fun existing => String.eqb existing.(id) msg.(id)) acc
                 then acc else acc ++ [msg]) buffered prev in
  sort_by_timestamp newMessages.

Definition no_marker (m : Message) : Prop := isSystemText m.(text) = false.

Definition msg_a : Message := mkMessage "a" "hi" "u1" "Kim" "/images/cat.jpg" (Some 1000%Z) false.
Definition msg_b : Message := mkMessage "b" "hi" "u1" "Kim" "/images/cat.jpg" (Some 3000%Z) false.
Definition msg_sys : Message :=
  mkMessage "s" "[SYSTEM] restart" "u9" "Bot" "" (Some 2000%Z) false.



(* ------------------------------------------------------------------------- *)
(** ** Transport singleton (lib/pusher-singleton.ts, second revision) *)

(** [pusher.connection.state] *)
Inductive ConnState :=
| Initialized | Connecting | Connected | Unavailable | Failed | Disconnected.

(** One [new Pusher(...)] with its [subscribe('chat')] channel: [inst_no] tells
    instances apart, [handlers] are the [(target, event)] pairs bound on its
    connection and channel. *)
Record Instance := mkInstance {
  inst_no : nat;
  conn : ConnState;
  handlers : list (string * string)
}.

(** Module state: [globalPusherInstance]/[globalChannel] (set and cleared
    together), [instanceUsers], the pending [setTimeout] cleanup callbacks (their
    due times) and the clock.  [created] and [torn_down] count constructions and
    teardowns of an instance; they observe the module and do not steer it. *)
Record Singleton := mkSingleton {
  globalInstance : option Instance;
  instanceUsers : nat;
  timers : list Z;
  clock : Z;
  created : nat;
  torn_down : nat
}.

Definition singleton_init : Singleton := mkSingleton None 0 [] 0 0 0.

Definition healthy (s : ConnState) : bool :=
  match s with
  | Connected | Connecting => true
  | _ => false
  end.

(** [cleanupPusherInstance] *)
Definition cleanupPusherInstance (st : Singleton) : Singleton :=
  mkSingleton None 0 st.(timers) st.(clock) st.(created)
              (match st.(globalInstance) with
               | Some _ => S st.(torn_down)
               | None => st.(torn_down)
               end).

(** [new Pusher(...)]; the client connects as soon as it is built, so its
    state is [connecting]. *)
Definition create_instance (st : Singleton) : Instance * Singleton :=
  let i := mkInstance st.(created) Connecting [] in
  (i, mkSingleton (Some i) 1 st.(timers) st.(clock) (S st.(created)) st.(torn_down)).

(** [getPusherInstance]: [config_ok] is [validatePusherConfigClient()] (it reads
    the build-time public environment, fixed for the process).  The result is
    [{ pusher, channel, isReused }] or [null]. *)
Definition getPusherInstance (config_ok : bool) (st : Singleton)
  : option (Instance * bool) * Singleton :=
  if negb config_ok then (None, st)
  else
    let fresh st0 := let '(i, st1) := create_instance st0 in (Some (i, false), st1) in
    match st.(globalInstance) with
    | Some i =>
        if healthy i.(conn)
        then (Some (i, true),
              mkSingleton st.(globalInstance) (S st.(instanceUsers)) st.(timers)
                          st.(clock) st.(created) st.(torn_down))
        else fresh (cleanupPusherInstance st)
    | None => fresh st
    end.

(** [process.env.NODE_ENV === 'production' ? 5000 : 3000] *)
Definition cleanup_delay (production : bool) : Z := if production then 5000%Z else 3000%Z.

(** [releasePusherInstance]: [Math.max(0, instanceUsers - 1)], and at zero a
    delayed cleanup. *)
Definition releasePusherInstance (production : bool) (st : Singleton) : Singleton :=
  let users := (st.(instanceUsers) - 1)%nat in
  mkSingleton st.(globalInstance) users
              (if Nat.eqb users 0
               then st.(timers) ++ [(st.(clock) + cleanup_delay production)%Z]
               else st.(timers))
              st.(clock) st.(created) st.(torn_down).

(** The cleanup callback: [if (instanceUsers === 0) cleanupPusherInstance()]. *)
Definition cleanup_timer_fires (st : Singleton) : Singleton :=
  if Nat.eqb st.(instanceUsers) 0 then cleanupPusherInstance st else st.

(** Let [dt] milliseconds pass: the callbacks due by then run, in order. *)
Definition advance (dt : Z) (st : Singleton) : Singleton :=
  let t := (st.(clock) + dt)%Z in
  let due := filter (fun d => (d <=? t)%Z) st.(timers) in
  let rest := filter (fun d => negb (d <=? t)%Z) st.(timers) in
  let st' := fold_left (fun s _ => cleanup_timer_fires s) due st in
  mkSingleton st'.(globalInstance) st'.(instanceUsers) rest t st'.(created) st'.(torn_down).

(** The transport reports a new connection state for the live instance. *)
Definition transport_state (s : ConnState) (st : Singleton) : Singleton :=
  mkSingleton (option_map (fun i => mkInstance i.(inst_no) s i.(handlers))
                          st.(globalInstance))
              st.(instanceUsers) st.(timers) st.(clock) st.(created) st.(torn_down).

Inductive SEvent :=
| Acquire                   (* getPusherInstance() *)
| Release                   (* releasePusherInstance() *)
| Wait (dt : Z)             (* time passes *)
| Transport (s : ConnState).

Definition s_step (config_ok production : bool) (st : Singleton) (ev : SEvent) : Singleton :=
  match ev with
  | Acquire => snd (getPusherInstance config_ok st)
  | Release => releasePusherInstance production st
  | Wait dt => advance dt st
  | Transport s => transport_state s st
  end.

Definition s_run (config_ok production : bool) (st : Singleton) (evs : list SEvent)
  : Singleton :=
  fold_left (s_step config_ok production) evs st.

(** The handlers [initializePusher] (part_002) binds on a fresh instance. *)
Definition bound_handlers : list (string * string) :=
  [("connection", "connecting"); ("connection", "connected");
   ("connection", "disconnected"); ("connection", "failed");
   ("connection", "error"); ("connection", "state_change");
   ("channel", "pusher:subscription_succeeded");
   ("channel", "pusher:subscription_error"); ("channel", "new-message");
   ("channel", "user-joined"); ("channel", "user-left");
   ("channel", "user-typing"); ("channel", "user-stopped-typing")].

(** The refs of one [usePusher] that gate [initializePusher]. *)
Record HookRefs := mkHookRefs {
  componentMounted : bool;
  isInitialized : bool;
  isDisconnecting : bool
}.

Definition bind_on_global (hs : list (string * string)) (st : Singleton) : Singleton :=
  mkSingleton (option_map (fun i => mkInstance i.(inst_no) i.(conn) (i.(handlers) ++ hs))
                          st.(globalInstance))
              st.(instanceUsers) st.(timers) st.(clock) st.(created) st.(torn_down).

(** [initializePusher]: the gates, the acquisition and the binding step
    ([if (!isReused)]); the last component is what this call bound. *)
Definition initializePusher (config_ok : bool) (h : HookRefs) (st : Singleton)
  : HookRefs * Singleton * list (string * string) :=
  if negb h.(componentMounted) then (h, st, [])
  else if h.(isInitialized) || h.(isDisconnecting) then (h, st, [])
  else
    match getPusherInstance config_ok st with
    | (None, st') => (h, st', [])
    | (Some (_, isReused), st') =>
        let h' := mkHookRefs h.(componentMounted) true h.(isDisconnecting) in
        if isReused then (h', st', [])
        else (h', bind_on_global bound_handlers st', bound_handlers)
    end.

(** States the module reaches for a fixed configuration. *)
Inductive reachable (config_ok production : bool) : Singleton -> Prop :=
| reach_init : reachable config_ok production singleton_init
| reach_step st ev : reachable config_ok production st ->
                     reachable config_ok production (s_step config_ok production st ev)
| reach_init_pusher h st : reachable config_ok production st ->
    reachable config_ok production (snd (fst (initializePusher config_ok h st))).

(** Two acquire/release pairs, [a], [g] and [b] milliseconds apart, the
    transport reporting [s] before the second acquisition. *)
Definition two_pairs (a g b : Z) (s : ConnState) : list SEvent :=
  [Acquire; Wait a; Release; Wait g; Transport s; Acquire; Wait b; Release].



(* ------------------------------------------------------------------------- *)
(** ** The other methods of [MessageBuffer] (utils/messageBuffer.ts) *)

(** [getUnreadCount()] *)
Definition getUnreadCount (mb : MessageBuffer) : nat :=
  length (filter (fun msg => negb msg.(isRead)) mb.(buffer)).

(** [msg.isRead = true] on one entry. *)
Definition set_read (msg : BufferedMessage) : BufferedMessage :=
  mkBuffered msg.(b_id) msg.(b_text) msg.(b_userId) msg.(b_userName) msg.(b_userAvatar)
             msg.(b_timestamp) msg.(receivedAt) true.

(** [markAllAsRead()] *)
Definition markAllAsRead (mb : MessageBuffer) : MessageBuffer :=
  mkMessageBuffer (map set_read mb.(buffer)) mb.(isPageVisible).

(** [this.buffer.find(msg => msg.id === messageId)], then
    [if (message && !message.isRead) message.isRead = true]. *)
Fixpoint mark_first_read (messageId : string) (l : list BufferedMessage)
  : list BufferedMessage :=
  match l with
  | [] => []
  | msg :: rest =>
      if String.eqb msg.(b_id) messageId
      then (if negb msg.(isRead) then set_read msg else msg) :: rest
      else msg :: mark_first_read messageId rest
  end.

(** [markAsRead(messageId)] *)
Definition markAsRead (messageId : string) (mb : MessageBuffer) : MessageBuffer :=
  mkMessageBuffer (mark_first_read messageId mb.(buffer)) mb.(isPageVisible).

(** [clear()] *)
Definition clear (mb : MessageBuffer) : MessageBuffer :=
  mkMessageBuffer [] mb.(isPageVisible).

(** [cleanupOldMessages()]: the removed count and the new buffer; [now] is
    [Date.now()]. *)
Definition cleanupOldMessages (now : Z) (mb : MessageBuffer) : nat * MessageBuffer :=
  let oneHourAgo := (now - 60 * 60 * 1000)%Z in
  let beforeCount := length mb.(buffer) in
  let kept := filter (fun msg => (oneHourAgo <? msg.(receivedAt))%Z) mb.(buffer) in
  ((beforeCount - length kept)%nat, mkMessageBuffer kept mb.(isPageVisible)).

(** The [visibilitychange] listener of [setupVisibilityListener]; [hidden] is
    [document.hidden].  The visibility listeners it notifies do not touch the
    buffer. *)
Definition on_visibilitychange (hidden : bool) (mb : MessageBuffer) : MessageBuffer :=
  let wasVisible := mb.(isPageVisible) in
  let mb1 := mkMessageBuffer mb.(buffer) (negb hidden) in
  if negb wasVisible && mb1.(isPageVisible) then markAllAsRead mb1 else mb1.

(** The [focus] listener. *)
Definition on_focus (mb : MessageBuffer) : MessageBuffer :=
  if negb mb.(isPageVisible)
  then markAllAsRead (mkMessageBuffer mb.(buffer) true)
  else mb.

(** The [blur] listener. *)
Definition on_blur (mb : MessageBuffer) : MessageBuffer :=
  mkMessageBuffer mb.(buffer) false.

(** What reaches the [messageBuffer] singleton. *)
Inductive BufferEvent :=
| BAdd (now : Z) (m : Message)          (* addMessage, from the new-message handler *)
| BVisibility (hidden : bool)           (* visibilitychange *)
| BFocus                                (* window focus *)
| BBlur                                 (* window blur *)
| BMarkAsRead (messageId : string)
| BMarkAllAsRead                        (* markAllMessagesAsRead, from the hook's visibility handler *)
| BClear
| BCleanup (now : Z).                   (* cleanupOldMessages *)

Definition buffer_step (mb : MessageBuffer) (ev : BufferEvent) : MessageBuffer :=
  match ev with
  | BAdd now m => snd (addMessage now mb m)
  | BVisibility hidden => on_visibilitychange hidden mb
  | BFocus => on_focus mb
  | BBlur => on_blur mb
  | BMarkAsRead i => markAsRead i mb
  | BMarkAllAsRead => markAllAsRead mb
  | BClear => clear mb
  | BCleanup now => snd (cleanupOldMessages now mb)
  end.

(** States of the buffer: the constructor ([isPageVisible = !document.hidden],
    empty buffer), then any events. *)
Inductive buffer_reachable : MessageBuffer -> Prop :=
| buffer_reach_init (visible : bool) : buffer_reachable (mkMessageBuffer [] visible)
| buffer_reach_step mb ev : buffer_reachable mb -> buffer_reachable (buffer_step mb ev).

(** No two entries, the earlier [a] and the later [b], are the same logical
    message. *)
Definition no_same_logical_pair (l : list Message) : Prop :=
  ForallOrdPairs (fun a b => ~ same_logical a b) l.

(* ------------------------------------------------------------------------- *)
(** ** Typing presence: runs of the three handlers *)

Inductive TypingEvent :=
| TypingStarted (typingUser : TypingUser)   (* 'user-typing' *)
| TypingStopped (userId : string)           (* 'user-stopped-typing' *)
| TypingSweep (now : Z).                    (* the 1 s cleanupTypingUsers interval *)

Definition typing_step (currentUserId : option string) (prev : list TypingUser)
           (ev : TypingEvent) : list TypingUser :=
  match ev with
  | TypingStarted tu => on_user_typing currentUserId prev tu
  | TypingStopped uid => on_user_stopped_typing prev uid
  | TypingSweep now => cleanupTypingUsers now prev
  end.

(** [useState<TypingUser[]>([])], then the events, the session's own id being
    [currentUserId]. *)
Definition typing_run (currentUserId : option string) (evs : list TypingEvent)
  : list TypingUser :=
  fold_left (typing_step currentUserId) evs [].

(* ------------------------------------------------------------------------- *)
(** ** [joinChat] (usePusher, part_002) *)

(** The result of [joinChat]: the roster after its two [setOnlineUsers]
    updates, the [POST /api/pusher/user] requests it made (their [action]) and
    how the promise settles.  [connected] is [isPusherConnected()],
    [channel_ok] is [channelRef.current] being set, [response_ok] is
    [response.ok] and [errorData_error] the [error] field of a failed
    response.  Both updates are applied in turn to the roster, no other event
    coming in between. *)
Record JoinEffects := mkJoinEffects {
  j_roster : list User;
  j_requests : list string;
  j_result : unit + string
}.

Definition joinChat (connected channel_ok response_ok : bool)
           (errorData_error : option string) (user : User) (prev : list User)
  : JoinEffects :=
  if negb connected then mkJoinEffects prev [] (inr "Not connected to Pusher")
  else if negb channel_ok then mkJoinEffects prev [] (inr "Channel not subscribed")
  else
    let filtered := filter (fun u => negb (String.eqb u.(u_id) user.(u_id))) prev in
    if negb response_ok
    then mkJoinEffects filtered ["join"]
           (inr (match errorData_error with
                 | Some e => if String.eqb e EmptyString then "Failed to join chat" else e
                 | None => "Failed to join chat"
                 end))
    else
      let isAlreadyInList := existsb (fun u => String.eqb u.(u_id) user.(u_id)) filtered in
      mkJoinEffects (if negb isAlreadyInList then filtered ++ [user] else filtered)
                    ["join"] (inl tt).



(** [getTime(a) <= getTime(b)] on two valid dates. *)
Definition ts_le (a b : Message) : Prop :=
  match a.(timestamp), b.(timestamp) with
  | Some x, Some y => (x <= y)%Z
  | _, _ => False
  end.

(* ------------------------------------------------------------------------- *)
(** ** [cleanupPusher] and [reconnect] (usePusher, part_002) *)

(** [cleanupPusher]: the gate, the two flags and [releasePusherInstance()];
    the last component tells whether it released.  The flag reset scheduled
    at its end is the [HFlagReset] event below. *)
Definition cleanupPusher (production : bool) (h : HookRefs) (st : Singleton)
  : HookRefs * Singleton * bool :=
  if h.(isDisconnecting) || negb h.(isInitialized) then (h, st, false)
  else (mkHookRefs h.(componentMounted) false true, releasePusherInstance production st, true).

(** [reconnect]: skipped while disconnecting; otherwise
    [isInitializedRef.current = false] and [initializePusher()]. *)
Definition reconnect (config_ok : bool) (h : HookRefs) (st : Singleton)
  : HookRefs * Singleton * list (string * string) :=
  if h.(isDisconnecting) then (h, st, [])
  else initializePusher config_ok (mkHookRefs h.(componentMounted) false h.(isDisconnecting)) st.

(** One mounted [usePusher] sharing the module with other components.
    [acquired] and [released] count its successful [getPusherInstance()]
    calls and its [releasePusherInstance()] calls; they observe the hook and
    do not steer it. *)
Record HookRun := mkHookRun {
  hook : HookRefs;
  hstate : Singleton;
  acquired : nat;
  released : nat
}.

Inductive HookEvent :=
| HInit                     (* initializePusher() *)
| HCleanup                  (* cleanupPusher() *)
| HReconnect                (* reconnect() *)
| HFlagReset                (* isDisconnectingRef.current = false *)
| HMounted (b : bool)       (* componentMountedRef.current = b *)
| HOther (ev : SEvent).     (* another component, the clock or the transport *)

Definition hook_step (config_ok production : bool) (hr : HookRun) (ev : HookEvent) : HookRun :=
  match ev with
  | HInit =>
      let '(h', st', _) := initializePusher config_ok hr.(hook) hr.(hstate) in
      mkHookRun h' st'
        (hr.(acquired) + (if negb hr.(hook).(isInitialized) && h'.(isInitialized) then 1 else 0))
        hr.(released)
  | HCleanup =>
      let '(h', st', rel) := cleanupPusher production hr.(hook) hr.(hstate) in
      mkHookRun h' st' hr.(acquired) (hr.(released) + (if rel then 1 else 0))
  | HReconnect =>
      let '(h', st', _) := reconnect config_ok hr.(hook) hr.(hstate) in
      mkHookRun h' st'
        (hr.(acquired)
         + (if negb hr.(hook).(isDisconnecting) && h'.(isInitialized) then 1 else 0))
        hr.(released)
  | HFlagReset =>
      mkHookRun (mkHookRefs hr.(hook).(componentMounted) hr.(hook).(isInitialized) false)
                hr.(hstate) hr.(acquired) hr.(released)
  | HMounted b =>
      mkHookRun (mkHookRefs b hr.(hook).(isInitialized) hr.(hook).(isDisconnecting))
                hr.(hstate) hr.(acquired) hr.(released)
  | HOther e => mkHookRun hr.(hook) (s_step config_ok production hr.(hstate) e)
                          hr.(acquired) hr.(released)
  end.

(** The refs of a freshly mounted hook ([useRef(false)], mounted), on any
    module state. *)
Definition hook_run (config_ok production : bool) (st0 : Singleton) (evs : list HookEvent)
  : HookRun :=
  fold_left (hook_step config_ok production) evs (mkHookRun (mkHookRefs true false false) st0 0 0).

(** The live instance counts as one: [globalPusherInstance !== null]. *)
Definition live (st : Singleton) : nat :=
  match st.(globalInstance) with Some _ => 1 | None => 0 end.

(* ------------------------------------------------------------------------- *)
(** ** [MessageReliabilityManager] (utils/messageReliability.ts) *)

(** A JavaScript [Map] with string keys: an association list in insertion
    order; [set] on a present key replaces its value in place. *)
Fixpoint map_get {V} (k : string) (m : list (string * V)) : option V :=
  match m with
  | [] => None
  | (k', v) :: rest => if String.eqb k' k then Some v else map_get k rest
  end.

Definition map_set {V} (k : string) (v : V) (m : list (string * V)) : list (string * V) :=
  if existsb (fun p => String.eqb (fst p) k) m
  then map (fun p => if String.eqb (fst p) k then (k, v) else p) m
  else m ++ [(k, v)].

Definition map_delete {V} (k : string) (m : list (string * V)) : list (string * V) :=
  filter (fun p => negb (String.eqb (fst p) k)) m.

Inductive DeliveryStatus := SPending | SDelivered | SFailed | SRetrying.

Record MessageDeliveryStatus := mkDeliveryStatus {
  md_messageId : string;
  status : DeliveryStatus;
  attempts : nat;
  lastAttempt : Z;
  error : option string
}.

Record MessageRetryConfig := mkRetryConfig {
  maxRetries : nat;
  retryDelay : Z;
  exponentialBackoff : bool
}.

(** The configuration of the exported [messageReliability] instance. *)
Definition default_config : MessageRetryConfig := mkRetryConfig 3 1000 true.

(** [pendingMessages], [retryTimeouts] (the due time of each pending retry
    timer) and the 5 s record cleanups scheduled by [markMessageDelivered]. *)
Record Reliability := mkReliability {
  pendingMessages : list (string * MessageDeliveryStatus);
  retryTimeouts : list (string * Z);
  deleteTimers : list (Z * string)
}.

Definition set_pending (k : string) (s : MessageDeliveryStatus) (r : Reliability) : Reliability :=
  mkReliability (map_set k s r.(pendingMessages)) r.(retryTimeouts) r.(deleteTimers).

(** [startMessageDelivery(messageId)]; [now] is [Date.now()]. *)
Definition startMessageDelivery (now : Z) (messageId : string) (r : Reliability) : Reliability :=
  set_pending messageId (mkDeliveryStatus messageId SPending 0 now None) r.

(** [clearRetryTimeout(messageId)] *)
Definition clearRetryTimeout (messageId : string) (r : Reliability) : Reliability :=
  mkReliability r.(pendingMessages) (map_delete messageId r.(retryTimeouts)) r.(deleteTimers).

(** [markMessageDelivered(messageId)] *)
Definition markMessageDelivered (now : Z) (messageId : string) (r : Reliability) : Reliability :=
  match map_get messageId r.(pendingMessages) with
  | None => r
  | Some s =>
      let r1 := set_pending messageId
                  (mkDeliveryStatus s.(md_messageId) SDelivered s.(attempts) s.(lastAttempt) s.(error)) r in
      let r2 := clearRetryTimeout messageId r1 in
      mkReliability r2.(pendingMessages) r2.(retryTimeouts)
                    (r2.(deleteTimers) ++ [((now + 5000)%Z, messageId)])
  end.

(** [scheduleRetry(messageId)]: [Math.pow(2, attempts - 1)] with
    [attempts >= 1], as it is after [markMessageFailed]'s increment. *)
Definition scheduleRetry (cfg : MessageRetryConfig) (now : Z) (messageId : string)
           (r : Reliability) : Reliability :=
  match map_get messageId r.(pendingMessages) with
  | None => r
  | Some s =>
      let r1 := clearRetryTimeout messageId r in
      let delay := if cfg.(exponentialBackoff)
                   then (cfg.(retryDelay) * 2 ^ (Z.of_nat s.(attempts) - 1))%Z
                   else cfg.(retryDelay) in
      mkReliability r1.(pendingMessages)
                    (map_set messageId (now + delay)%Z r1.(retryTimeouts)) r1.(deleteTimers)
  end.

(** [markMessageFailed(messageId, error, shouldRetry)] *)
Definition markMessageFailed (cfg : MessageRetryConfig) (now : Z) (messageId err : string)
           (shouldRetry : bool) (r : Reliability) : Reliability :=
  match map_get messageId r.(pendingMessages) with
  | None => r
  | Some s =>
      let a := S s.(attempts) in
      if shouldRetry && Nat.ltb a cfg.(maxRetries)
      then scheduleRetry cfg now messageId
             (set_pending messageId
                (mkDeliveryStatus s.(md_messageId) SRetrying a now (Some err)) r)
      else clearRetryTimeout messageId
             (set_pending messageId
                (mkDeliveryStatus s.(md_messageId) SFailed a now (Some err)) r)
  end.

(** [stopTracking(messageId)] *)
Definition stopTracking (messageId : string) (r : Reliability) : Reliability :=
  let r1 := clearRetryTimeout messageId r in
  mkReliability (map_delete messageId r1.(pendingMessages)) r1.(retryTimeouts) r1.(deleteTimers).

(** [cleanup()]: the ids whose last attempt is older than an hour, collected
    first, then [stopTracking] on each. *)
Definition reliability_cleanup (now : Z) (r : Reliability) : Reliability :=
  let oneHourAgo := (now - 60 * 60 * 1000)%Z in
  let entriesToDelete :=
    map fst (filter (fun p => ((snd p).(lastAttempt) <? oneHourAgo)%Z) r.(pendingMessages)) in
  fold_left (fun r messageId => stopTracking messageId r) entriesToDelete r.

Record ReliabilityStats := mkStats {
  total : nat;
  st_pending : nat;
  st_delivered : nat;
  st_failed : nat;
  st_retrying : nat
}.

Definition status_eqb (a b : DeliveryStatus) : bool :=
  match a, b with
  | SPending, SPending | SDelivered, SDelivered | SFailed, SFailed
  | SRetrying, SRetrying => true
  | _, _ => false
  end.

(** [getStats()] *)
Definition getStats (r : Reliability) : ReliabilityStats :=
  let messages := map snd r.(pendingMessages) in
  mkStats (length messages)
          (length (filter (fun m => status_eqb m.(status) SPending) messages))
          (length (filter (fun m => status_eqb m.(status) SDelivered) messages))
          (length (filter (fun m => status_eqb m.(status) SFailed) messages))
          (length (filter (fun m => status_eqb m.(status) SRetrying) messages)).

(* ------------------------------------------------------------------------- *)
(** ** [startTyping] and [stopTyping] (usePusher, part_002) *)

(** The hook's [isTypingRef] and [typingTimeoutRef] (the due time of the armed
    auto-stop timeout), the [startTyping] calls whose [fetch] has not settled
    yet, and the [action]s of the [POST /api/pusher/typing] requests sent so
    far.  A timeout that has fired is no longer armed: clearing it later does
    nothing. *)
Record TypingClient := mkTypingClient {
  isTypingRef : bool;
  typingTimeoutRef : option Z;
  startsInFlight : nat;
  typingRequests : list string
}.

(** [startTyping(user)] up to its [await fetch(...)]; [hasUser] is
    [user || currentUserRef.current] being set, [connected] is
    [isPusherConnected()]. *)
Definition startTyping (hasUser connected : bool) (c : TypingClient) : TypingClient :=
  if negb hasUser then c
  else if negb connected then c
  else if c.(isTypingRef) then c
  else mkTypingClient true c.(typingTimeoutRef) (S c.(startsInFlight))
                      (c.(typingRequests) ++ ["start"]).

(** The rest of a [startTyping] call once its request settles: [ok] is the
    request succeeding ([response.ok] and the body read); on success the
    auto-stop timeout is re-armed for 3 s, otherwise the [catch] resets
    [isTypingRef]. *)
Definition startTyping_settle (ok : bool) (now : Z) (c : TypingClient) : TypingClient :=
  match c.(startsInFlight) with
  | O => c
  | S n =>
      if ok then mkTypingClient c.(isTypingRef) (Some (now + 3000)%Z) n c.(typingRequests)
      else mkTypingClient false c.(typingTimeoutRef) n c.(typingRequests)
  end.

(** [stopTyping(user)]: the outcome of its request is only logged. *)
Definition stopTyping (hasUser connected : bool) (c : TypingClient) : TypingClient :=
  if negb hasUser then c
  else if negb connected then c
  else if negb c.(isTypingRef) then c
  else mkTypingClient false None c.(startsInFlight) (c.(typingRequests) ++ ["stop"]).

Inductive TypingClientEvent :=
| CStartTyping (hasUser connected : bool)
| CStartSettled (ok : bool) (now : Z)
| CStopTyping (hasUser connected : bool)
| CTimeout (now : Z) (hasUser connected : bool).  (* the 3 s timeout calls [stopTyping()] *)

Definition typing_client_step (c : TypingClient) (ev : TypingClientEvent) : TypingClient :=
  match ev with
  | CStartTyping u k => startTyping u k c
  | CStartSettled ok now => startTyping_settle ok now c
  | CStopTyping u k => stopTyping u k c
  | CTimeout now u k =>
      match c.(typingTimeoutRef) with
      | Some due =>
          if (due <=? now)%Z
          then stopTyping u k (mkTypingClient c.(isTypingRef) None c.(startsInFlight)
                                              c.(typingRequests))
          else c
      | None => c
      end
  end.

Definition typing_client_run (evs : list TypingClientEvent) : TypingClient :=
  fold_left typing_client_step evs (mkTypingClient false None 0 []).

(* ------------------------------------------------------------------------- *)
(** ** [isNotificationAlreadyShown] (usePusher, part_002) *)

(** [recentNotificationIds] (a [Set], as a list), the pending 10 s removal
    timeouts (id and due time), and, as an observation, the ids and times of
    the checks that answered [false] (a notification allowed). *)
Record NotifDedupe := mkNotifDedupe {
  recentNotificationIds : list string;
  removalTimers : list (string * Z);
  allowed : list (string * Z)
}.

(** [isNotificationAlreadyShown(messageId)] at time [now]. *)
Definition isNotificationAlreadyShown (now : Z) (messageId : string) (st : NotifDedupe)
  : bool * NotifDedupe :=
  let alreadyShown := existsb (String.eqb messageId) st.(recentNotificationIds) in
  if negb alreadyShown
  then (false, mkNotifDedupe (st.(recentNotificationIds) ++ [messageId])
                             (st.(removalTimers) ++ [(messageId, (now + 10000)%Z)])
                             (st.(allowed) ++ [(messageId, now)]))
  else (true, st).

(** The removal timeout of [messageId] firing at [now]; timeouts never fire
    early. *)
Definition fire_removal (now : Z) (messageId : string) (st : NotifDedupe) : NotifDedupe :=
  match map_get messageId st.(removalTimers) with
  | Some due =>
      if (due <=? now)%Z
      then mkNotifDedupe (filter (fun i => negb (String.eqb i messageId)) st.(recentNotificationIds))
                         (map_delete messageId st.(removalTimers)) st.(allowed)
      else st
  | None => st
  end.

(** States reached from the empty set, with the time of the last event; the
    events come in time order. *)
Inductive notif_reachable : NotifDedupe -> Z -> Prop :=
| notif_init (t : Z) : notif_reachable (mkNotifDedupe [] [] []) t
| notif_check st t now messageId :
    notif_reachable st t -> (t <= now)%Z ->
    notif_reachable (snd (isNotificationAlreadyShown now messageId st)) now
| notif_fire st t now messageId :
    notif_reachable st t -> (t <= now)%Z ->
    notif_reachable (fire_removal now messageId st) now.

(* ========================================================================= *)
(** * Proofs *)

(** ** Helper lemmas on the message model *)

Lemma abs_diff_lt_spec (a b : option Z) (w : Z) :
  abs_diff_lt a b w = true <->
  exists x y, a = Some x /\ b = Some y /\ (Z.abs (x - y) < w)%Z.
Proof.
  destruct a as [x|], b as [y|]; simpl; split.
  - intros H. exists x, y. repeat split. now apply Z.ltb_lt.
  - intros (x' & y' & Hx & Hy & Hl). inversion Hx; inversion Hy; subst.
    now apply Z.ltb_lt.
  - discriminate.
  - intros (? & ? & ? & ? & _); discriminate.
  - discriminate.
  - intros (? & ? & ? & ? & _); discriminate.
  - discriminate.
  - intros (? & ? & ? & ? & _); discriminate.
Qed.

Lemma message_dup_test_spec (e m : Message) :
  (String.eqb e.(id) m.(id)
   || (String.eqb e.(text) m.(text) && String.eqb e.(userId) m.(userId)
       && abs_diff_lt e.(timestamp) m.(timestamp) DUPLICATE_WINDOW_MS)) = true
  <-> same_logical e m.
Proof.
  unfold same_logical.
  rewrite orb_true_iff, !andb_true_iff, !String.eqb_eq, abs_diff_lt_spec.
  tauto.
Qed.

Lemma existsb_orb_distr {A} (f g : A -> bool) (l : list A) :
  existsb f l || existsb g l = existsb (fun x => f x || g x) l.
Proof.
  induction l as [|a l IH]; simpl; [reflexivity|].
  rewrite <- IH. destruct (f a), (g a), (existsb f l), (existsb g l); reflexivity.
Qed.

Lemma existsb_Exists {A} (f : A -> bool) (P : A -> Prop) (l : list A) :
  (forall x, f x = true <-> P x) ->
  existsb f l = true <-> Exists P l.
Proof.
  intros Hf. rewrite existsb_exists, Exists_exists.
  split; intros (x & Hin & Hx); exists x; split; auto; now apply Hf.
Qed.

Lemma v1_duplicate_spec (prev : list Message) (m : Message) :
  (isDuplicateById prev m || isDuplicateByContent prev m) = true <->
  Exists (fun e => same_logical e m) prev.
Proof.
  unfold isDuplicateById, isDuplicateByContent.
  rewrite existsb_orb_distr. apply existsb_Exists.
  intros e. rewrite <- message_dup_test_spec. reflexivity.
Qed.

Lemma buffer_duplicate_spec (buf : list BufferedMessage) (m : Message) :
  existsb (fun buffered =>
             String.eqb buffered.(b_id) m.(id)
             || (String.eqb buffered.(b_text) m.(text)
                 && String.eqb buffered.(b_userId) m.(userId)
                 && abs_diff_lt buffered.(b_timestamp) m.(timestamp) 5000)) buf = true
  <-> Exists (fun b => same_logical (buffered_view b) m) buf.
Proof.
  apply existsb_Exists. intros b.
  rewrite <- message_dup_test_spec. reflexivity.
Qed.

Lemma slice_last_skipn {A} (n : nat) (l : list A) :
  slice_last n l = skipn (length l - n) l.
Proof.
  unfold slice_last. destruct (Nat.ltb_spec n (length l)); [reflexivity|].
  replace (length l - n)%nat with 0%nat by lia. reflexivity.
Qed.

(** ** C1: ingest rejects exactly the same logical messages *)

(** C1. The live ingest ([new-message] handler of the part_000 revision, whose
    log is capped at 100) and [MessageBuffer.addMessage] (capped at 50) reject
    a candidate, returning false and leaving the log unchanged, exactly when
    the log holds a message that is the same logical message (equal ids, or
    equal sender and text with timestamps less than 5 s apart); otherwise the
    candidate is appended at the end of the log (the front being trimmed to the
    cap). *)
Theorem ingest_rejects_iff_same_logical :
  (forall (prev : list Message) (m : Message),
      (on_new_message_v1 prev m = (false, prev)
       <-> Exists (fun e => same_logical e m) prev)
      /\ (~ Exists (fun e => same_logical e m) prev ->
          on_new_message_v1 prev m = (true, slice_last MAX_MESSAGES (prev ++ [m]))
          /\ exists pre, snd (on_new_message_v1 prev m) = pre ++ [m]))
  /\ (forall (now : Z) (mb : MessageBuffer) (m : Message),
      (addMessage now mb m = (false, mb)
       <-> Exists (fun b => same_logical (buffered_view b) m) mb.(buffer))
      /\ (~ Exists (fun b => same_logical (buffered_view b) m) mb.(buffer) ->
          fst (addMessage now mb m) = true
          /\ exists pre, (snd (addMessage now mb m)).(buffer) =
                         pre ++ [mkBuffered m.(id) m.(text) m.(userId) m.(userName)
                                    m.(userAvatar) m.(timestamp) now mb.(isPageVisible)])).
Proof.
  split.
  - intros prev m. pose proof (v1_duplicate_spec prev m) as Hd.
    unfold on_new_message_v1.
    destruct (isDuplicateById prev m || isDuplicateByContent prev m) eqn:E; simpl.
    + split; [split; [intros _; now apply Hd | reflexivity] |].
      intros Hn. exfalso. now apply Hn, Hd.
    + split.
      * split; [discriminate | intros H; apply Hd in H; discriminate].
      * intros _. split; [reflexivity|].
        rewrite slice_last_skipn, length_app; simpl.
        destruct (length prev + 1 - MAX_MESSAGES)%nat as [|k] eqn:Hk.
        { exists prev. reflexivity. }
        exists (skipn (S k) prev).
        rewrite skipn_app. f_equal.
        replace (S k - length prev)%nat with 0%nat
          by (unfold MAX_MESSAGES in Hk; lia). reflexivity.
  - intros now mb m. pose proof (buffer_duplicate_spec mb.(buffer) m) as Hd.
    unfold addMessage.
    destruct (existsb _ mb.(buffer)) eqn:E; simpl.
    + split; [split; [intros _; now apply Hd | reflexivity] |].
      intros Hn. exfalso. now apply Hn, Hd.
    + split.
      * split; [discriminate | intros H; apply Hd in H; discriminate].
      * intros _. split; [reflexivity|].
        set (bm := mkBuffered _ _ _ _ _ _ _ _).
        destruct (Nat.ltb_spec maxBufferSize (length (buffer mb ++ [bm]))); simpl.
        -- rewrite length_app in *; simpl in *.
           destruct (length (buffer mb) + 1 - maxBufferSize)%nat as [|k] eqn:Hk.
           { exists (buffer mb). reflexivity. }
           exists (skipn (S k) (buffer mb)).
           rewrite skipn_app. f_equal.
           replace (S k - length (buffer mb))%nat with 0%nat
             by (unfold maxBufferSize in *; lia). reflexivity.
        -- exists (buffer mb). reflexivity.
Qed.

(** ** C5: retention cap *)

Lemma skipn_app_le {A} (k : nat) (l r : list A) :
  (k <= length l)%nat -> skipn k l ++ r = skipn k (l ++ r).
Proof.
  intros Hk. rewrite skipn_app. replace (k - length l)%nat with 0%nat by lia.
  reflexivity.
Qed.

Lemma slice_last_app {A} (n : nat) (l r : list A) :
  slice_last n (slice_last n l ++ r) = slice_last n (l ++ r).
Proof.
  rewrite !slice_last_skipn.
  rewrite (skipn_app_le (length l - n) l r) by lia.
  rewrite skipn_skipn, !length_skipn, !length_app.
  f_equal. lia.
Qed.

Lemma run_v1_log (log cs : list Message) :
  slice_last MAX_MESSAGES log = log ->
  snd (run_v1 log cs) = slice_last MAX_MESSAGES (log ++ fst (run_v1 log cs)).
Proof.
  revert log. induction cs as [|c cs IH]; intros log Hlog; simpl.
  - now rewrite app_nil_r.
  - unfold on_new_message_v1.
    destruct (negb (isDuplicateById log c || isDuplicateByContent log c)).
    + specialize (IH (slice_last MAX_MESSAGES (log ++ [c]))).
      destruct (run_v1 (slice_last MAX_MESSAGES (log ++ [c])) cs) as [acc fin].
      simpl in *. rewrite IH.
      * rewrite slice_last_app, <- app_assoc. reflexivity.
      * rewrite <- (app_nil_r (slice_last _ (log ++ [c]))) at 1.
        rewrite slice_last_app, app_nil_r. reflexivity.
    + specialize (IH log Hlog).
      destruct (run_v1 log cs) as [acc fin]. simpl in *. exact IH.
Qed.

(** C5. Feeding any sequence of deliveries to the live ingest, starting from an
    empty log: once more than 100 messages have been accepted, the log is
    exactly the last 100 accepted messages, in acceptance order (the oldest
    were evicted first). *)
Theorem retention_cap_last_100 (cs : list Message) :
  (100 < length (fst (run_v1 [] cs)))%nat ->
  snd (run_v1 [] cs) = skipn (length (fst (run_v1 [] cs)) - 100) (fst (run_v1 [] cs))
  /\ length (snd (run_v1 [] cs)) = 100%nat.
Proof.
  intros Hlt. rewrite (run_v1_log [] cs eq_refl). simpl.
  rewrite slice_last_skipn. unfold MAX_MESSAGES.
  split; [reflexivity|]. rewrite length_skipn. lia.
Qed.

(** Witness of C5: 101 distinct deliveries. *)
Lemma retention_cap_last_100_witness :
  (100 < length (fst (run_v1 [] (map sample_msg (seq 0 101)))))%nat
  /\ snd (run_v1 [] (map sample_msg (seq 0 101)))
     = skipn (length (fst (run_v1 [] (map sample_msg (seq 0 101)))) - 100)
             (fst (run_v1 [] (map sample_msg (seq 0 101))))
  /\ length (snd (run_v1 [] (map sample_msg (seq 0 101)))) = 100%nat.
Proof.
  assert (H : (100 < length (fst (run_v1 [] (map sample_msg (seq 0 101)))))%nat)
    by (apply Nat.ltb_lt; vm_compute; reflexivity).
  split; [exact H | apply (retention_cap_last_100 (map sample_msg (seq 0 101)) H)].
Defined.

(** ** C8: typing expiry *)

(** C8. After a sweep at time [now], no tracked typing signal whose start is
    more than 5 s before [now] remains; the sweep reads only the tracked list,
    so this holds whatever start/stop events produced that list. *)
Theorem typing_sweep_removes_expired (now : Z) (prev : list TypingUser)
  (u : TypingUser) (s : Z) :
  In u prev -> u.(startedAt) = Some s -> (now - s > 5000)%Z ->
  ~ In u (cleanupTypingUsers now prev).
Proof.
  intros _ Hs Hold Hin. unfold cleanupTypingUsers in Hin.
  apply filter_In in Hin as [_ Hk]. rewrite Hs in Hk.
  apply Z.ltb_lt in Hk. lia.
Qed.

Lemma typing_sweep_removes_expired_witness :
  let u := mkTypingUser "u2" "Lee" (Some 1000%Z) in
  (In u [u] /\ u.(startedAt) = Some 1000%Z /\ (7000 - 1000 > 5000)%Z)
  /\ ~ In u (cleanupTypingUsers 7000 [u]).
Proof.
  intros u. split; [split; [left; reflexivity | split; [reflexivity | lia]] |].
  apply (typing_sweep_removes_expired 7000 [u] u 1000); [left; reflexivity | reflexivity | lia].
Defined.

(** ** C9: input validation of sendMessage *)

(** C9. A call of [sendMessage] whose text is empty or not a string, longer than
    1000 characters, or whose sender lacks an id, a name or an avatar fails
    with an error and issues no request to the backing API, whatever the
    connection state and the server would answer. *)
Theorem sendMessage_rejects_invalid_input (connected response_ok : bool)
  (messageId : string) (message : JsArg) (user : option UserArg) :
  invalid_send_input message user ->
  (sendMessage connected response_ok messageId message user).(requests) = []
  /\ exists e, (sendMessage connected response_ok messageId message user).(result)
               = SendFailed e.
Proof.
  unfold invalid_send_input, sendMessage, sendMessage_try.
  destruct message as [msg | t]; [| intros _; simpl; eauto].
  intros Hinv.
  destruct (String.eqb msg EmptyString || Nat.eqb (String.length (trim msg)) 0) eqn:Ee;
    [simpl; eauto |].
  destruct user as [u|]; [| simpl; eauto].
  destruct (negb (truthy u.(ua_id)) || negb (truthy u.(ua_name))
            || negb (truthy u.(ua_avatar))) eqn:Eu; [simpl; eauto |].
  destruct (Nat.ltb 1000 (String.length msg)) eqn:El; [simpl; eauto |].
  exfalso.
  apply orb_false_iff in Ee as [Ee _]. apply String.eqb_neq in Ee.
  apply Nat.ltb_ge in El.
  rewrite !orb_false_iff, !negb_false_iff in Eu. destruct Eu as [[Ei En] Ea].
  destruct Hinv as [H | [H | [H | [H | H]]]]; try congruence; lia.
Qed.

Lemma sendMessage_rejects_invalid_input_witness :
  invalid_send_input (JsString "") (Some (mkUserArg (Some "u1") (Some "Kim")
                                          (Some "/images/cat.jpg") None))
  /\ (sendMessage true true "m1" (JsString "")
        (Some (mkUserArg (Some "u1") (Some "Kim") (Some "/images/cat.jpg") None))).(requests) = []
  /\ exists e, (sendMessage true true "m1" (JsString "")
        (Some (mkUserArg (Some "u1") (Some "Kim") (Some "/images/cat.jpg") None))).(result)
               = SendFailed e.
Proof.
  assert (H : invalid_send_input (JsString "") (Some (mkUserArg (Some "u1") (Some "Kim")
                                          (Some "/images/cat.jpg") None)))
    by (left; reflexivity).
  split; [exact H | apply (sendMessage_rejects_invalid_input true true "m1" _ _ H)].
Defined.

Example sendMessage_valid_example :
  sendMessage true true "m1" (JsString " hi ")
    (Some (mkUserArg (Some "u1") (Some "Kim") (Some "/images/cat.jpg") None))
  = mkSendEffects [mkSendPayload "hi" (mkUserArg (Some "u1") (Some "Kim")
                                         (Some "/images/cat.jpg") None) "m1"] SendOk.
Proof. vm_compute. reflexivity. Qed.

(** ** C6: roster reconciliation with a server snapshot *)

Lemma id_in_map_spec (x : string) (l : list User) :
  id_in x (map u_id l) = true <-> exists u, In u l /\ u.(u_id) = x.
Proof.
  unfold id_in. rewrite existsb_exists. split.
  - intros (y & Hy & Heq). apply in_map_iff in Hy as (u & <- & Hu).
    apply String.eqb_eq in Heq. exists u. auto.
  - intros (u & Hu & <-). exists u.(u_id). split; [now apply in_map | apply String.eqb_refl].
Qed.

(** C6 (as amended).  Reconciliation with a snapshot adds every snapshot
    participant missing locally other than the local session's own, removes
    every local participant absent from the snapshot other than the local
    session's own, keeps the local session's own participant, and never adds
    the own participant from the snapshot. *)
Theorem sync_reconciles_except_own (own : option string) (server prev : list User) :
  (forall u, In u server -> is_current own u.(u_id) = false ->
             (forall p, In p prev -> p.(u_id) <> u.(u_id)) ->
             In u (sync_update own server prev))
  /\ (forall p, In p prev -> (forall s, In s server -> s.(u_id) <> p.(u_id)) ->
                is_current own p.(u_id) = false -> ~ In p (sync_update own server prev))
  /\ (forall p, In p prev -> is_current own p.(u_id) = true ->
                In p (sync_update own server prev))
  /\ (forall x, In x (sync_update own server prev) -> is_current own x.(u_id) = true ->
                In x prev).
Proof.
  unfold sync_update. repeat split.
  - intros u Hu Hown Hmiss. apply in_or_app. right.
    apply filter_In. split.
    + apply filter_In. split; [exact Hu | now rewrite Hown].
    + apply negb_true_iff. apply not_true_is_false. intros Hin.
      apply id_in_map_spec in Hin as (p & Hp & Heq). exact (Hmiss p Hp Heq).
  - intros p Hp Habs Hown Hin. apply in_app_or in Hin as [Hin | Hin].
    + apply filter_In in Hin as [_ Hk]. rewrite Hown, orb_false_r in Hk.
      apply id_in_map_spec in Hk as (s & Hs & Heq).
      apply filter_In in Hs as [Hs _]. exact (Habs s Hs Heq).
    + apply filter_In in Hin as [Hin _]. apply filter_In in Hin as [Hin _].
      exact (Habs p Hin eq_refl).
  - intros p Hp Hown. apply in_or_app. left. apply filter_In.
    split; [exact Hp | now rewrite Hown, orb_true_r].
  - intros x Hin Hown. apply in_app_or in Hin as [Hin | Hin].
    + now apply filter_In in Hin as [Hin _].
    + apply filter_In in Hin as [Hin _]. apply filter_In in Hin as [_ Hk].
      rewrite Hown in Hk. discriminate.
Qed.

(** C6 as stated fails: the own participant is in the snapshot, missing
    locally, and reconciliation does not add it. *)
Lemma sync_does_not_add_own_from_snapshot :
  In user_me [user_me]
  /\ sync_update (Some "me") [user_me] [] = []
  /\ ~ In user_me (sync_update (Some "me") [user_me] []).
Proof.
  split; [left; reflexivity|]. split; [reflexivity|].
  vm_compute. tauto.
Qed.

(** ** C7: a repeated join event *)

(** When the presence test reads the current roster, a join for a present id
    keeps the size and overwrites that entry's fields. *)
Lemma on_user_joined_current_roster (prev : list User) (u : User) :
  (exists p, In p prev /\ p.(u_id) = u.(u_id)) ->
  length (on_user_joined prev prev u) = length prev
  /\ forall p, In p prev -> p.(u_id) = u.(u_id) -> In (merge_user p u) (on_user_joined prev prev u).
Proof.
  intros (p0 & Hp0 & Hid0). unfold on_user_joined.
  assert (Hex : existsb (fun x => String.eqb x.(u_id) u.(u_id)) prev = true).
  { apply existsb_exists. exists p0. split; [exact Hp0 | now apply String.eqb_eq]. }
  rewrite Hex. simpl. split; [now rewrite length_map |].
  intros p Hp Hid. apply in_map_iff. exists p. split; [| exact Hp].
  now rewrite (proj2 (String.eqb_eq _ _) Hid).
Qed.

(** C7 fails on the code: the handler bound on the first (fresh) instance
    tests presence on the roster captured when it was bound, the empty initial
    roster; a second join for [bob] appends a second [bob] entry. *)
Theorem repeated_join_duplicates_entry :
  roster_run roster_init [BindHandlers; UserJoinedEvent user_bob; UserJoinedEvent user_bob']
  = mkRosterState [user_bob; user_bob'] (Some [])
  /\ In user_bob (roster_run roster_init [BindHandlers; UserJoinedEvent user_bob]).(onlineUsers)
  /\ length (roster_run roster_init [BindHandlers; UserJoinedEvent user_bob]).(onlineUsers) = 1%nat
  /\ length (roster_run roster_init [BindHandlers; UserJoinedEvent user_bob;
                                     UserJoinedEvent user_bob']).(onlineUsers) = 2%nat.
Proof. vm_compute. repeat split; auto. Qed.

(** ** C10: the system-text filter of the live path *)

(** C10 (as amended).  The live [new-message] handler leaves the message
    buffer and the log untouched for a message whose text carries one of the
    markers, so a log free of such messages stays free of them under it. *)
Theorem live_ingest_drops_marker_messages (now : Z) (st : LiveState) (m : Message) :
  (isSystemText m.(text) = true -> on_new_message_v2 now st m = st)
  /\ (Forall no_marker st.(messages) ->
      Forall no_marker (on_new_message_v2 now st m).(messages)).
Proof.
  unfold on_new_message_v2. split.
  - intros H. now rewrite H.
  - intros Hall. destruct (isSystemText m.(text)) eqn:Hs; [exact Hall|].
    destruct (addMessage now (msgBuffer st) m) as [[|] mb']; simpl; [|exact Hall].
    destruct (isDuplicateById (messages st) m); [exact Hall|].
    rewrite slice_last_skipn.
    assert (Happ : Forall no_marker (messages st ++ [m]))
      by (apply Forall_app; split; [exact Hall | constructor; [exact Hs | constructor]]).
    rewrite <- (firstn_skipn (length (messages st ++ [m]) - MAX_MESSAGES)
                             (messages st ++ [m])) in Happ.
    apply Forall_app in Happ as [_ Happ]. exact Happ.
Qed.

(** C10 as stated fails: the buffered replay path puts a marker message in
    the log. *)
Lemma buffered_replay_keeps_marker_message :
  on_buffered_messages [] [msg_sys] = [msg_sys]
  /\ isSystemText msg_sys.(text) = true
  /\ ~ Forall no_marker (on_buffered_messages [] [msg_sys]).
Proof.
  assert (H : on_buffered_messages [] [msg_sys] = [msg_sys]) by reflexivity.
  assert (Hs : isSystemText msg_sys.(text) = true) by reflexivity.
  split; [exact H | split; [exact Hs |]].
  rewrite H. intros Hf. inversion Hf as [|? ? Hn _]. unfold no_marker in Hn. congruence.
Qed.

(** ** C4: buffered replay *)

(** C4 fails on the code: [msg_b] has the sender and text of [msg_a], 2 s
    later, under another id.  The live ingest and the message buffer reject it;
    the buffered replay adds it. *)
Theorem buffered_replay_skips_content_dedup :
  on_buffered_messages [msg_a] [msg_b] = [msg_a; msg_b]
  /\ on_new_message_v1 [msg_a] msg_b = (false, [msg_a])
  /\ fst (addMessage 5000 (snd (addMessage 4000 (mkMessageBuffer [] true) msg_a)) msg_b)
     = false
  /\ same_logical msg_a msg_b.
Proof.
  split; [reflexivity|]. split; [reflexivity|]. split; [reflexivity|].
  right. split; [reflexivity|]. split; [reflexivity|].
  exists 1000%Z, 3000%Z. repeat split.
Qed.

(** ** C3 and C2: the transport singleton *)

Lemma fold_timers_keeps_none (due : list Z) (st : Singleton) :
  st.(globalInstance) = None ->
  (fold_left (fun s _ => cleanup_timer_fires s) due st).(globalInstance) = None.
Proof.
  revert st. induction due as [|d due IH]; intros st Hn; simpl; [exact Hn|].
  apply IH. unfold cleanup_timer_fires.
  destruct (Nat.eqb (instanceUsers st) 0); [reflexivity | exact Hn].
Qed.

Lemma no_instance_without_config (production : bool) (st : Singleton) :
  reachable false production st -> st.(globalInstance) = None.
Proof.
  induction 1 as [| st ev Hr IH | h st Hr IH].
  - reflexivity.
  - destruct ev; simpl.
    + exact IH.
    + exact IH.
    + unfold advance. simpl. now apply fold_timers_keeps_none.
    + unfold transport_state. simpl. now rewrite IH.
  - unfold initializePusher.
    destruct (componentMounted h); [| exact IH]. simpl.
    destruct (isInitialized h || isDisconnecting h); exact IH.
Qed.

(** C3.  In any state the module reaches, an acquisition while the live
    connection is connecting or connected returns that instance with
    [isReused = true] and one more user; [initializePusher] then binds nothing
    and leaves the instance's handlers as they were.  Whenever
    [initializePusher] binds handlers, the acquisition it made returned a fresh
    instance ([isReused = false]). *)
Theorem acquire_reuses_without_rebinding (config_ok production : bool)
  (st : Singleton) (i : Instance) :
  reachable config_ok production st ->
  st.(globalInstance) = Some i -> healthy i.(conn) = true ->
  getPusherInstance config_ok st
    = (Some (i, true), mkSingleton (Some i) (S st.(instanceUsers)) st.(timers)
                                   st.(clock) st.(created) st.(torn_down))
  /\ (forall h, snd (initializePusher config_ok h st) = []
                /\ (snd (fst (initializePusher config_ok h st))).(globalInstance) = Some i)
  /\ (forall h st0, snd (initializePusher config_ok h st0) <> [] ->
        exists i0 st1, getPusherInstance config_ok st0 = (Some (i0, false), st1)).
Proof.
  intros Hr Hi Hh.
  assert (Hc : config_ok = true).
  { destruct config_ok; [reflexivity|].
    apply no_instance_without_config in Hr. congruence. }
  subst config_ok.
  assert (Hget : getPusherInstance true st
                 = (Some (i, true), mkSingleton (Some i) (S st.(instanceUsers)) st.(timers)
                                                st.(clock) st.(created) st.(torn_down))).
  { unfold getPusherInstance. simpl. rewrite Hi, Hh. reflexivity. }
  split; [exact Hget|]. split.
  - intros h. unfold initializePusher.
    destruct (componentMounted h); simpl; [| now split].
    destruct (isInitialized h || isDisconnecting h); simpl; [now split|].
    rewrite Hget. simpl. now split.
  - intros h st0 Hb. unfold initializePusher in Hb.
    destruct (componentMounted h); simpl in Hb; [| congruence].
    destruct (isInitialized h || isDisconnecting h); simpl in Hb; [congruence|].
    destruct (getPusherInstance true st0) as [[[i0 [|]]|] st1] eqn:E; simpl in Hb;
      try congruence.
    now exists i0, st1.
Qed.

Lemma acquire_reuses_without_rebinding_witness :
  let st := s_step true false singleton_init Acquire in
  (reachable true false st /\ st.(globalInstance) = Some (mkInstance 0 Connecting [])
   /\ healthy Connecting = true)
  /\ getPusherInstance true st
       = (Some (mkInstance 0 Connecting [], true),
          mkSingleton (Some (mkInstance 0 Connecting [])) (S st.(instanceUsers)) st.(timers)
                      st.(clock) st.(created) st.(torn_down))
  /\ (forall h, snd (initializePusher true h st) = []
                /\ (snd (fst (initializePusher true h st))).(globalInstance)
                   = Some (mkInstance 0 Connecting []))
  /\ (forall h st0, snd (initializePusher true h st0) <> [] ->
        exists i0 st1, getPusherInstance true st0 = (Some (i0, false), st1)).
Proof.
  intros st.
  assert (Hr : reachable true false st) by (apply reach_step, reach_init).
  split; [split; [exact Hr | split; reflexivity] |].
  exact (acquire_reuses_without_rebinding true false st (mkInstance 0 Connecting [])
           Hr eq_refl eq_refl).
Defined.

(** C2 (as amended).  A release never tears the connection down itself; a
    pending cleanup does nothing while the count is above zero; and, starting
    with no connection, two acquire/release pairs whose gap is shorter than the
    grace delay, with the transport still connecting or connected at the
    second acquisition, create the connection once and never tear it down. *)
Theorem grace_delay_two_pairs (production : bool) (a g b : Z) (s : ConnState) :
  (0 <= a)%Z -> (0 <= g)%Z -> (g < cleanup_delay production)%Z -> (0 <= b)%Z ->
  healthy s = true ->
  (forall st, (releasePusherInstance production st).(globalInstance) = st.(globalInstance)
              /\ (releasePusherInstance production st).(torn_down) = st.(torn_down))
  /\ (forall st, st.(instanceUsers) <> 0%nat -> cleanup_timer_fires st = st)
  /\ (s_run true production singleton_init (two_pairs a g b s)).(created) = 1%nat
  /\ (s_run true production singleton_init (two_pairs a g b s)).(torn_down) = 0%nat
  /\ (s_run true production singleton_init (two_pairs a g b s)).(globalInstance)
     = Some (mkInstance 0 s []).
Proof.
  intros Ha Hg Hgd Hb Hs.
  split; [intros st; split; reflexivity|].
  split.
  { intros st Hu. unfold cleanup_timer_fires.
    now rewrite (proj2 (Nat.eqb_neq _ _) Hu). }
  assert (E : (0 + a + cleanup_delay production <=? 0 + a + g)%Z = false)
    by (apply Z.leb_gt; lia).
  unfold s_run, two_pairs. cbn -[Z.leb Z.add cleanup_delay]. rewrite E.
  cbn -[Z.leb Z.add cleanup_delay]. rewrite Hs. cbn -[Z.leb Z.add cleanup_delay].
  destruct (0 + a + cleanup_delay production <=? 0 + a + g + b)%Z;
    cbn -[Z.leb Z.add cleanup_delay]; auto.
Qed.

Lemma grace_delay_two_pairs_witness :
  ((0 <= 0)%Z /\ (0 <= 1000)%Z /\ (1000 < cleanup_delay false)%Z /\ (0 <= 0)%Z
   /\ healthy Connected = true)
  /\ (s_run true false singleton_init (two_pairs 0 1000 0 Connected)).(created) = 1%nat.
Proof.
  assert (H : (1000 < cleanup_delay false)%Z) by (vm_compute; reflexivity).
  split; [repeat split; try lia; exact H |].
  apply (grace_delay_two_pairs false 0 1000 0 Connected); try lia; try exact H; reflexivity.
Defined.

(** C2 as stated fails.  (1) The cleanup scheduled by the first release is not
    cancelled by the next acquisition: after a second pair it tears the
    connection down 1.5 s after the last release, before a grace delay (3 s in
    development) has passed since it.  (2) Two pairs 100 ms apart create the
    connection twice when the transport dropped in between. *)
Lemma grace_delay_counterexample :
  s_run true false singleton_init
        [Acquire; Release; Wait 1000; Acquire; Wait 500; Release; Wait 1500]
  = mkSingleton None 0 [4500%Z] 3000%Z 1 1
  /\ (s_run true false singleton_init
        [Acquire; Release; Wait 1000; Acquire; Wait 500; Release]).(clock) = 1500%Z
  /\ (s_run true false singleton_init (two_pairs 0 100 0 Disconnected)).(created) = 2%nat
  /\ (s_run true false singleton_init (two_pairs 0 100 0 Disconnected)).(torn_down) = 1%nat.
Proof. repeat split; reflexivity. Qed.


(* ========================================================================= *)
(** * Further properties of the code *)

(** ** Lists without a same-logical pair *)

Lemma ForallOrdPairs_app_single {A} (R : A -> A -> Prop) (l : list A) (x : A) :
  ForallOrdPairs R l -> Forall (fun a => R a x) l -> ForallOrdPairs R (l ++ [x]).
Proof.
  induction 1 as [|a l Ha Hl IH]; intros Hx; simpl.
  - constructor; constructor.
  - inversion Hx as [|? ? Hax Hrest]; subst.
    constructor.
    + apply Forall_app. split; [exact Ha | constructor; [exact Hax | constructor]].
    + apply IH. exact Hrest.
Qed.

Lemma ForallOrdPairs_skipn {A} (R : A -> A -> Prop) (n : nat) (l : list A) :
  ForallOrdPairs R l -> ForallOrdPairs R (skipn n l).
Proof.
  revert l. induction n as [|n IH]; intros l H; [exact H|].
  destruct l as [|a l]; simpl; [constructor|].
  inversion H; subst. now apply IH.
Qed.

Lemma ForallOrdPairs_filter {A} (R : A -> A -> Prop) (f : A -> bool) (l : list A) :
  ForallOrdPairs R l -> ForallOrdPairs R (filter f l).
Proof.
  induction 1 as [|a l Ha Hl IH]; simpl; [constructor|].
  destruct (f a); [constructor; [|exact IH] | exact IH].
  rewrite Forall_forall in *. intros x Hx. apply filter_In in Hx as [Hx _]. auto.
Qed.

Lemma ForallOrdPairs_map {A B} (R : B -> B -> Prop) (g : A -> B) (l : list A) :
  ForallOrdPairs R (map g l) <-> ForallOrdPairs (fun a b => R (g a) (g b)) l.
Proof.
  induction l as [|a l IH]; simpl; split; intros H; try constructor.
  - inversion H; subst. now apply Forall_map.
  - inversion H; subst. now apply IH.
  - inversion H; subst. now apply Forall_map.
  - inversion H; subst. now apply IH.
Qed.

Lemma same_logical_fields (a m m' : Message) :
  m'.(id) = m.(id) -> m'.(text) = m.(text) -> m'.(userId) = m.(userId) ->
  m'.(timestamp) = m.(timestamp) ->
  same_logical a m' <-> same_logical a m.
Proof.
  intros Hi Ht Hu Hs. unfold same_logical. rewrite Hi, Ht, Hu, Hs. tauto.
Qed.

Lemma map_view_set_read (l : list BufferedMessage) :
  map buffered_view (map set_read l) = map buffered_view l.
Proof. rewrite map_map. reflexivity. Qed.

Lemma map_view_mark_first_read (i : string) (l : list BufferedMessage) :
  map buffered_view (mark_first_read i l) = map buffered_view l.
Proof.
  induction l as [|msg l IH]; simpl; [reflexivity|].
  destruct (String.eqb (b_id msg) i); simpl.
  - destruct (isRead msg); reflexivity.
  - now rewrite IH.
Qed.

Lemma addMessage_buffer_cases (now : Z) (mb : MessageBuffer) (m : Message) :
  (snd (addMessage now mb m)).(isPageVisible) = mb.(isPageVisible)
  /\ ((snd (addMessage now mb m)).(buffer) = mb.(buffer)
      \/ (~ Exists (fun b => same_logical (buffered_view b) m) mb.(buffer)
          /\ (snd (addMessage now mb m)).(buffer)
             = skipn (length mb.(buffer) + 1 - maxBufferSize)
                 (mb.(buffer) ++ [mkBuffered m.(id) m.(text) m.(userId) m.(userName)
                                    m.(userAvatar) m.(timestamp) now mb.(isPageVisible)]))).
Proof.
  pose proof (buffer_duplicate_spec mb.(buffer) m) as Hd.
  unfold addMessage. destruct (existsb _ mb.(buffer)) eqn:E; simpl.
  - split; [reflexivity | left; reflexivity].
  - split; [reflexivity|]. right. split.
    + intros H. apply Hd in H. discriminate.
    + rewrite length_app. simpl.
      destruct (Nat.ltb_spec maxBufferSize (length (buffer mb) + 1)); [reflexivity|].
      replace (length (buffer mb) + 1 - maxBufferSize)%nat with 0%nat by lia.
      reflexivity.
Qed.

(** ** Invariants of [MessageBuffer] *)

(** The buffer never holds more than [maxBufferSize] (50) entries, whatever
    the sequence of additions, visibility changes, read marks, clears and
    sweeps. *)
Theorem buffer_size_bounded (mb : MessageBuffer) :
  buffer_reachable mb -> (length mb.(buffer) <= maxBufferSize)%nat.
Proof.
  induction 1 as [v | mb ev Hr IH]; simpl; [unfold maxBufferSize; lia|].
  destruct ev as [now m | hidden | | | i | | | now]; simpl.
  - destruct (addMessage_buffer_cases now mb m) as [_ [-> | [_ ->]]]; [exact IH|].
    rewrite length_skipn, length_app. simpl. unfold maxBufferSize in *. lia.
  - unfold on_visibilitychange. destruct (negb _ && _); simpl;
      [rewrite length_map|]; exact IH.
  - unfold on_focus. destruct (negb (isPageVisible mb)); simpl;
      [rewrite length_map|]; exact IH.
  - exact IH.
  - rewrite <- (length_map buffered_view), map_view_mark_first_read, length_map.
    exact IH.
  - rewrite length_map. exact IH.
  - unfold maxBufferSize. lia.
  - eapply Nat.le_trans; [apply filter_length_le | exact IH].
Qed.

Lemma buffer_size_bounded_witness :
  buffer_reachable (buffer_step (mkMessageBuffer [] true) (BAdd 1000 msg_a))
  /\ (length (buffer_step (mkMessageBuffer [] true) (BAdd 1000 msg_a)).(buffer)
      <= maxBufferSize)%nat.
Proof.
  assert (H : buffer_reachable (buffer_step (mkMessageBuffer [] true) (BAdd 1000 msg_a)))
    by (apply buffer_reach_step, buffer_reach_init).
  split; [exact H | exact (buffer_size_bounded _ H)].
Defined.

(** The buffer never holds two entries that are the same logical message
    (equal ids, or equal sender and text less than 5 s apart). *)
Theorem buffer_no_same_logical_pair (mb : MessageBuffer) :
  buffer_reachable mb -> no_same_logical_pair (map buffered_view mb.(buffer)).
Proof.
  unfold no_same_logical_pair.
  induction 1 as [v | mb ev Hr IH]; simpl; [constructor|].
  destruct ev as [now m | hidden | | | i | | | now]; simpl.
  - destruct (addMessage_buffer_cases now mb m) as [_ [-> | [Hn ->]]]; [exact IH|].
    rewrite <- skipn_map. apply ForallOrdPairs_skipn.
    rewrite map_app. simpl. apply ForallOrdPairs_app_single; [exact IH|].
    apply Forall_map. apply Forall_forall. intros b Hb Hs.
    apply Hn, Exists_exists. exists b. split; [exact Hb|].
    revert Hs. apply same_logical_fields; reflexivity.
  - unfold on_visibilitychange. destruct (negb _ && _); simpl;
      [rewrite map_view_set_read|]; exact IH.
  - unfold on_focus. destruct (negb (isPageVisible mb)); simpl;
      [rewrite map_view_set_read|]; exact IH.
  - exact IH.
  - rewrite map_view_mark_first_read. exact IH.
  - rewrite map_view_set_read. exact IH.
  - constructor.
  - apply ForallOrdPairs_map. apply ForallOrdPairs_filter.
    exact (proj1 (ForallOrdPairs_map _ buffered_view _) IH).
Qed.

Lemma buffer_no_same_logical_pair_witness :
  buffer_reachable (buffer_step (mkMessageBuffer [] true) (BAdd 1000 msg_a))
  /\ no_same_logical_pair
       (map buffered_view (buffer_step (mkMessageBuffer [] true) (BAdd 1000 msg_a)).(buffer)).
Proof.
  assert (H : buffer_reachable (buffer_step (mkMessageBuffer [] true) (BAdd 1000 msg_a)))
    by (apply buffer_reach_step, buffer_reach_init).
  split; [exact H | exact (buffer_no_same_logical_pair _ H)].
Defined.

Lemma Forall_of_skipn {A} (P : A -> Prop) (n : nat) (l : list A) :
  Forall P l -> Forall P (skipn n l).
Proof.
  intros H. rewrite <- (firstn_skipn n l) in H. now apply Forall_app in H as [_ H].
Qed.

Lemma unread_zero_of_all_read (l : list BufferedMessage) :
  Forall (fun msg => isRead msg = true) l ->
  length (filter (fun msg => negb msg.(isRead)) l) = 0%nat.
Proof.
  induction 1 as [|msg l Hm Hl IH]; simpl; [reflexivity|]. now rewrite Hm.
Qed.

Lemma all_read_set_read (l : list BufferedMessage) :
  Forall (fun msg => isRead msg = true) (map set_read l).
Proof. apply Forall_map, Forall_forall. reflexivity. Qed.

Lemma all_read_mark_first_read (i : string) (l : list BufferedMessage) :
  Forall (fun msg => isRead msg = true) l ->
  Forall (fun msg => isRead msg = true) (mark_first_read i l).
Proof.
  induction 1 as [|msg l Hm Hl IH]; simpl; [constructor|].
  destruct (String.eqb (b_id msg) i); constructor; auto.
  rewrite Hm. exact Hm.
Qed.

(** While the page is visible, the buffer holds no unread message: entries
    added then are marked read at once, and the page becomes visible again
    only through the [visibilitychange] or [focus] listener, which marks every
    entry read. *)
Theorem visible_page_has_no_unread (mb : MessageBuffer) :
  buffer_reachable mb -> mb.(isPageVisible) = true -> getUnreadCount mb = 0%nat.
Proof.
  intros Hr Hv. unfold getUnreadCount. apply unread_zero_of_all_read. revert Hv.
  induction Hr as [v | mb ev Hr IH]; simpl; intros Hv; [constructor|].
  destruct ev as [now m | hidden | | | i | | | now]; simpl in *.
  - destruct (addMessage_buffer_cases now mb m) as [Hvis [Hb | [_ Hb]]];
      rewrite Hvis in Hv; rewrite Hb; [exact (IH Hv)|].
    apply Forall_of_skipn. apply Forall_app. split; [exact (IH Hv)|].
    constructor; [exact Hv | constructor].
  - unfold on_visibilitychange in *.
    destruct (isPageVisible mb) eqn:Ew; simpl in *.
    + exact (IH eq_refl).
    + destruct hidden; simpl in *; [discriminate | apply all_read_set_read].
  - unfold on_focus in *. destruct (isPageVisible mb) eqn:Ew; simpl in *.
    + exact (IH eq_refl).
    + apply all_read_set_read.
  - discriminate.
  - apply all_read_mark_first_read. exact (IH Hv).
  - apply all_read_set_read.
  - constructor.
  - apply Forall_forall. intros x Hx. apply filter_In in Hx as [Hx _].
    exact (proj1 (Forall_forall _ _) (IH Hv) x Hx).
Qed.

Lemma visible_page_has_no_unread_witness :
  let mb := buffer_step (buffer_step (buffer_step (mkMessageBuffer [] true) BBlur)
                                     (BAdd 1000 msg_a)) BFocus in
  (buffer_reachable mb /\ mb.(isPageVisible) = true) /\ getUnreadCount mb = 0%nat.
Proof.
  intros mb.
  assert (H : buffer_reachable mb)
    by (repeat apply buffer_reach_step; apply buffer_reach_init).
  assert (Hv : mb.(isPageVisible) = true) by reflexivity.
  split; [split; assumption | exact (visible_page_has_no_unread mb H Hv)].
Defined.

(** [cleanupOldMessages] returns the number of entries it removed, which are
    those received an hour ago or earlier, and keeps the others in order. *)
Theorem cleanupOldMessages_spec (now : Z) (mb : MessageBuffer) :
  fst (cleanupOldMessages now mb) + length (snd (cleanupOldMessages now mb)).(buffer)
    = length mb.(buffer)
  /\ fst (cleanupOldMessages now mb)
     = length (filter (fun msg => (msg.(receivedAt) <=? now - 3600000)%Z) mb.(buffer))
  /\ (snd (cleanupOldMessages now mb)).(buffer)
     = filter (fun msg => (now - 3600000 <? msg.(receivedAt))%Z) mb.(buffer).
Proof.
  unfold cleanupOldMessages. simpl.
  pose proof (filter_length (fun msg => (now - 3600000 <? receivedAt msg)%Z) (buffer mb)) as H.
  cbv beta in H.
  assert (E : filter (fun msg => negb (now - 3600000 <? receivedAt msg)%Z) (buffer mb)
              = filter (fun msg => (receivedAt msg <=? now - 3600000)%Z) (buffer mb)).
  { apply filter_ext. intros msg. rewrite Z.leb_antisym. reflexivity. }
  rewrite E in H. split; [lia|]. split; [lia | reflexivity].
Qed.

(** ** The part_000 message log *)

Lemma run_v1_no_same_logical_pair (log cs : list Message) :
  no_same_logical_pair log -> no_same_logical_pair (snd (run_v1 log cs)).
Proof.
  unfold no_same_logical_pair.
  revert log. induction cs as [|c cs IH]; intros log Hlog; simpl; [exact Hlog|].
  pose proof (v1_duplicate_spec log c) as Hd.
  unfold on_new_message_v1.
  destruct (isDuplicateById log c || isDuplicateByContent log c) eqn:E; simpl.
  - specialize (IH log Hlog). destruct (run_v1 log cs) as [acc fin]. exact IH.
  - assert (Hn : ForallOrdPairs (fun a b => ~ same_logical a b)
                   (slice_last MAX_MESSAGES (log ++ [c]))).
    { rewrite slice_last_skipn. apply ForallOrdPairs_skipn.
      apply ForallOrdPairs_app_single; [exact Hlog|].
      apply Forall_forall. intros e He Hs. assert (Hx : Exists (fun e => same_logical e c) log)
        by (apply Exists_exists; exists e; auto).
      apply Hd in Hx. discriminate. }
    specialize (IH _ Hn). destruct (run_v1 _ cs) as [acc fin]. exact IH.
Qed.

(** The log built by the part_000 [new-message] handler from an empty log
    never holds two entries that are the same logical message. *)
Theorem v1_log_no_same_logical_pair (cs : list Message) :
  no_same_logical_pair (snd (run_v1 [] cs)).
Proof. apply run_v1_no_same_logical_pair. constructor. Qed.

(** ** Ids in the part_002 message log *)

Lemma NoDup_snoc {A} (l : list A) (x : A) :
  NoDup l -> ~ In x l -> NoDup (l ++ [x]).
Proof.
  intros Hl Hx. apply NoDup_app; [exact Hl | constructor; [intros [] | constructor] |].
  intros a Ha [<- | []]. exact (Hx Ha).
Qed.

Lemma NoDup_skipn {A} (n : nat) (l : list A) : NoDup l -> NoDup (skipn n l).
Proof.
  intros H. rewrite <- (firstn_skipn n l) in H. now apply NoDup_app_remove_l in H.
Qed.

Lemma id_in_messages_false (l : list Message) (m : Message) :
  existsb (fun e => String.eqb e.(id) m.(id)) l = false -> ~ In m.(id) (map id l).
Proof.
  intros E Hin. apply in_map_iff in Hin as (e & He & Hin).
  assert (existsb (fun e => String.eqb e.(id) m.(id)) l = true)
    by (apply existsb_exists; exists e; split; [exact Hin | now apply String.eqb_eq]).
  congruence.
Qed.

(** The live [new-message] handler of the part_002 revision keeps the ids of
    the message log pairwise distinct. *)
Theorem live_ingest_keeps_ids_unique (now : Z) (st : LiveState) (m : Message) :
  NoDup (map id st.(messages)) -> NoDup (map id (on_new_message_v2 now st m).(messages)).
Proof.
  intros H. unfold on_new_message_v2.
  destruct (isSystemText (text m)); [exact H|].
  destruct (addMessage now (msgBuffer st) m) as [[|] mb']; simpl; [|exact H].
  destruct (isDuplicateById (messages st) m) eqn:E; [exact H|].
  rewrite slice_last_skipn, <- skipn_map. apply NoDup_skipn.
  rewrite map_app. apply NoDup_snoc; [exact H|]. now apply id_in_messages_false.
Qed.

Lemma live_ingest_keeps_ids_unique_witness :
  NoDup (map id [msg_a])
  /\ NoDup (map id (on_new_message_v2 5000 (mkLiveState (mkMessageBuffer [] true) [msg_a])
                                       msg_b).(messages)).
Proof.
  assert (H : NoDup (map id [msg_a])) by (constructor; [intros [] | constructor]).
  split; [exact H|].
  exact (live_ingest_keeps_ids_unique 5000 (mkLiveState (mkMessageBuffer [] true) [msg_a])
           msg_b H).
Defined.

(** ** The buffered replay *)

Lemma replay_fold_spec (buffered acc : list Message) :
  let r := fold_left (fun acc msg =>
                        if existsb (fun existing => String.eqb existing.(id) msg.(id)) acc
                        then acc else acc ++ [msg]) buffered acc in
  (NoDup (map id acc) -> NoDup (map id r))
  /\ (forall m, In m acc -> In m r)
  /\ (forall m, In m buffered -> exists m', In m' r /\ m'.(id) = m.(id))
  /\ (forall m, In m r -> In m acc \/ In m buffered).
Proof.
  revert acc. induction buffered as [|b bs IH]; intros acc; simpl.
  - repeat split; auto. intros m [].
  - destruct (existsb (fun existing => String.eqb existing.(id) b.(id)) acc) eqn:E.
    + destruct (IH acc) as (H1 & H2 & H3 & H4). repeat split.
      * exact H1.
      * exact H2.
      * intros m [<- | Hm]; [|exact (H3 m Hm)].
        apply existsb_exists in E as (e & He & Heq). apply String.eqb_eq in Heq.
        exists e. split; [apply H2, He | exact Heq].
      * intros m Hm. destruct (H4 m Hm); tauto.
    + destruct (IH (acc ++ [b])) as (H1 & H2 & H3 & H4). repeat split.
      * intros Hn. apply H1. rewrite map_app. apply NoDup_snoc; [exact Hn|].
        now apply id_in_messages_false.
      * intros m Hm. apply H2, in_or_app. now left.
      * intros m [<- | Hm]; [|exact (H3 m Hm)].
        exists b. split; [apply H2, in_or_app; right; left; reflexivity | reflexivity].
      * intros m Hm. destruct (H4 m Hm) as [Hm' | Hm'];
          [apply in_app_or in Hm' as [Hm' | [<- | []]] |]; tauto.
Qed.

Lemma insert_sorted_perm (x : Message) (l : list Message) :
  Permutation (insert_sorted x l) (x :: l).
Proof.
  induction l as [|y ys IH]; simpl; [reflexivity|].
  destruct (ts_compare x y <? 0)%Z; [reflexivity|].
  rewrite IH. apply perm_swap.
Qed.

Lemma sort_fold_perm (l acc : list Message) :
  Permutation (fold_left (fun acc x => insert_sorted x acc) l acc) (l ++ acc).
Proof.
  revert acc. induction l as [|a l IH]; intros acc; simpl; [reflexivity|].
  rewrite IH, insert_sorted_perm. symmetry. apply Permutation_middle.
Qed.

Lemma sort_by_timestamp_perm (l : list Message) : Permutation (sort_by_timestamp l) l.
Proof. unfold sort_by_timestamp. rewrite sort_fold_perm. now rewrite app_nil_r. Qed.

(** The replay of buffered messages keeps the ids of the log pairwise
    distinct, and its result is, up to order, the log followed by the buffered
    messages whose id it did not hold yet: every message of the log is kept,
    every buffered id ends up in the log, and nothing else is added. *)
Theorem replay_merges_by_id (prev buffered : list Message) :
  NoDup (map id prev) ->
  NoDup (map id (on_buffered_messages prev buffered))
  /\ (forall m, In m prev -> In m (on_buffered_messages prev buffered))
  /\ (forall m, In m buffered ->
                exists m', In m' (on_buffered_messages prev buffered) /\ m'.(id) = m.(id))
  /\ (forall m, In m (on_buffered_messages prev buffered) -> In m prev \/ In m buffered).
Proof.
  intros Hn. unfold on_buffered_messages.
  destruct (replay_fold_spec buffered prev) as (H1 & H2 & H3 & H4).
  set (r := fold_left _ buffered prev) in *.
  pose proof (sort_by_timestamp_perm r) as Hp.
  repeat split.
  - apply (Permutation_NoDup (Permutation_map id (Permutation_sym Hp))). exact (H1 Hn).
  - intros m Hm. apply (Permutation_in m (Permutation_sym Hp)). exact (H2 m Hm).
  - intros m Hm. destruct (H3 m Hm) as (m' & Hm' & Heq). exists m'.
    split; [apply (Permutation_in m' (Permutation_sym Hp)), Hm' | exact Heq].
  - intros m Hm. apply H4. exact (Permutation_in m Hp Hm).
Qed.

Lemma replay_merges_by_id_witness :
  NoDup (map id [msg_a])
  /\ NoDup (map id (on_buffered_messages [msg_a] [msg_b]))
  /\ (forall m, In m [msg_a] -> In m (on_buffered_messages [msg_a] [msg_b]))
  /\ (forall m, In m [msg_b] ->
                exists m', In m' (on_buffered_messages [msg_a] [msg_b]) /\ m'.(id) = m.(id))
  /\ (forall m, In m (on_buffered_messages [msg_a] [msg_b]) -> In m [msg_a] \/ In m [msg_b]).
Proof.
  assert (H : NoDup (map id [msg_a])) by (constructor; [intros [] | constructor]).
  split; [exact H | exact (replay_merges_by_id [msg_a] [msg_b] H)].
Defined.

Lemma ts_compare_flip (x y : Message) :
  (ts_compare x y <? 0)%Z = false -> (ts_compare y x <= 0)%Z.
Proof.
  unfold ts_compare. intros H. apply Z.ltb_ge in H.
  destruct (timestamp x), (timestamp y); lia.
Qed.

Lemma insert_sorted_sorted (x : Message) (l : list Message) :
  Sorted (fun a b => (ts_compare a b <= 0)%Z) l ->
  Sorted (fun a b => (ts_compare a b <= 0)%Z) (insert_sorted x l).
Proof.
  induction l as [|y ys IH]; intros H; simpl; [repeat constructor|].
  destruct (ts_compare x y <? 0)%Z eqn:E.
  - apply Z.ltb_lt in E. constructor; [exact H | constructor; lia].
  - apply ts_compare_flip in E. inversion H as [|? ? Hs Hhd]; subst.
    constructor; [now apply IH|].
    destruct ys as [|z zs]; simpl; [constructor; exact E|].
    destruct (ts_compare x z <? 0)%Z; constructor; [exact E|].
    inversion Hhd; assumption.
Qed.

Lemma sort_fold_sorted (l acc : list Message) :
  Sorted (fun a b => (ts_compare a b <= 0)%Z) acc ->
  Sorted (fun a b => (ts_compare a b <= 0)%Z)
         (fold_left (fun acc x => insert_sorted x acc) l acc).
Proof.
  revert acc. induction l as [|a l IH]; intros acc H; simpl; [exact H|].
  apply IH, insert_sorted_sorted, H.
Qed.

Lemma Sorted_valid_ts (l : list Message) :
  Forall (fun m => m.(timestamp) <> None) l ->
  Sorted (fun a b => (ts_compare a b <= 0)%Z) l -> Sorted ts_le l.
Proof.
  intros Hv Hs. induction Hs as [|a l Hs IH Hhd]; [constructor|].
  inversion Hv as [|? ? Ha Hl]; subst. constructor; [exact (IH Hl)|].
  destruct Hhd as [|b l' Hab]; constructor.
  inversion Hl as [|? ? Hb _]; subst.
  unfold ts_le, ts_compare in *.
  destruct (timestamp a), (timestamp b); try congruence. lia.
Qed.

(** When every date involved is valid, the replay returns the log sorted by
    timestamp, oldest first. *)
Theorem replay_sorted_by_timestamp (prev buffered : list Message) :
  (forall m, In m prev \/ In m buffered -> m.(timestamp) <> None) ->
  Sorted ts_le (on_buffered_messages prev buffered).
Proof.
  intros Hv. apply Sorted_valid_ts.
  - apply Forall_forall. intros m Hm. apply Hv.
    unfold on_buffered_messages in Hm.
    destruct (replay_fold_spec buffered prev) as (_ & _ & _ & H4).
    apply H4. exact (Permutation_in m (sort_by_timestamp_perm _) Hm).
  - unfold on_buffered_messages, sort_by_timestamp. apply sort_fold_sorted. constructor.
Qed.

Lemma replay_sorted_by_timestamp_witness :
  (forall m, In m [msg_b] \/ In m [msg_a] -> m.(timestamp) <> None)
  /\ Sorted ts_le (on_buffered_messages [msg_b] [msg_a]).
Proof.
  assert (H : forall m, In m [msg_b] \/ In m [msg_a] -> m.(timestamp) <> None)
    by (intros m [[<- | []] | [<- | []]]; discriminate).
  split; [exact H | exact (replay_sorted_by_timestamp [msg_b] [msg_a] H)].
Defined.

(** ** Typing presence *)

Lemma NoDup_map_filter {A B} (g : A -> B) (f : A -> bool) (l : list A) :
  NoDup (map g l) -> NoDup (map g (filter f l)).
Proof.
  induction l as [|a l IH]; simpl; intros H; [constructor|].
  inversion H as [|? ? Hn Hl]; subst.
  destruct (f a); simpl; [|exact (IH Hl)].
  constructor; [|exact (IH Hl)].
  intros Hin. apply Hn. apply in_map_iff in Hin as (x & Hx & Hin).
  apply filter_In in Hin as [Hin _]. rewrite <- Hx. now apply in_map.
Qed.

Lemma replace_first_typing_ids (prev : list TypingUser) (tu : TypingUser) :
  map t_id (replace_first_typing prev tu) = map t_id prev.
Proof.
  induction prev as [|u rest IH]; simpl; [reflexivity|].
  destruct (String.eqb (t_id u) (t_id tu)) eqn:E; simpl.
  - apply String.eqb_eq in E. now rewrite E.
  - now rewrite IH.
Qed.

Lemma replace_first_typing_Forall (P : TypingUser -> Prop) (prev : list TypingUser)
  (tu : TypingUser) :
  Forall P prev -> P tu -> Forall P (replace_first_typing prev tu).
Proof.
  induction 1 as [|u rest Hu Hr IH]; intros Ht; simpl; [constructor|].
  destruct (String.eqb (t_id u) (t_id tu)); constructor; auto.
Qed.

Lemma typing_step_invariant (own : option string) (prev : list TypingUser)
  (ev : TypingEvent) :
  NoDup (map t_id prev) -> Forall (fun u => is_current own u.(t_id) = false) prev ->
  NoDup (map t_id (typing_step own prev ev))
  /\ Forall (fun u => is_current own u.(t_id) = false) (typing_step own prev ev).
Proof.
  intros Hn Ho. destruct ev as [tu | uid | now]; simpl.
  - unfold on_user_typing.
    destruct (match own with Some c => String.eqb (t_id tu) c | None => false end) eqn:Eown;
      [now split|].
    destruct (existsb (fun u => String.eqb (t_id u) (t_id tu)) prev) eqn:Ex.
    + rewrite replace_first_typing_ids. split; [exact Hn|].
      apply replace_first_typing_Forall; [exact Ho | exact Eown].
    + split.
      * rewrite map_app. apply NoDup_snoc; [exact Hn|].
        intros Hin. apply in_map_iff in Hin as (u & Hu & Hin).
        assert (existsb (fun u => String.eqb (t_id u) (t_id tu)) prev = true)
          by (apply existsb_exists; exists u; split; [exact Hin | now apply String.eqb_eq]).
        congruence.
      * apply Forall_app. split; [exact Ho | constructor; [exact Eown | constructor]].
  - unfold on_user_stopped_typing. split; [now apply NoDup_map_filter|].
    apply Forall_forall. intros x Hx. apply filter_In in Hx as [Hx _].
    exact (proj1 (Forall_forall _ _) Ho x Hx).
  - unfold cleanupTypingUsers. split; [now apply NoDup_map_filter|].
    apply Forall_forall. intros x Hx. apply filter_In in Hx as [Hx _].
    exact (proj1 (Forall_forall _ _) Ho x Hx).
Qed.

(** Whatever typing signals, stop signals and sweeps arrive, the list of
    typing users holds each user at most once and never the session's own
    user. *)
Theorem typing_users_unique_and_not_own (own : option string) (evs : list TypingEvent) :
  NoDup (map t_id (typing_run own evs))
  /\ Forall (fun u => is_current own u.(t_id) = false) (typing_run own evs).
Proof.
  unfold typing_run.
  assert (H : forall l, NoDup (map t_id l) -> Forall (fun u => is_current own u.(t_id) = false) l ->
              NoDup (map t_id (fold_left (typing_step own) evs l))
              /\ Forall (fun u => is_current own u.(t_id) = false)
                        (fold_left (typing_step own) evs l)).
  { induction evs as [|ev evs IH]; intros l Hn Ho; simpl; [now split|].
    destruct (typing_step_invariant own l ev Hn Ho) as [Hn' Ho'].
    exact (IH _ Hn' Ho'). }
  apply H; constructor.
Qed.

(** ** Roster reconciliation *)

Lemma sync_update_In (own : option string) (server prev : list User) (u : User) :
  In u (sync_update own server prev) <->
  (In u prev
   /\ (id_in u.(u_id) (map u_id (filter (fun user => negb (is_current own user.(u_id))) server))
       || is_current own u.(u_id)) = true)
  \/ ((In u server /\ is_current own u.(u_id) = false)
      /\ id_in u.(u_id) (map u_id prev) = false).
Proof.
  unfold sync_update. rewrite in_app_iff, !filter_In, negb_true_iff, negb_true_iff.
  reflexivity.
Qed.

(** Reconciling twice with the same snapshot gives the result of reconciling
    once. *)
Theorem sync_update_idempotent (own : option string) (server prev : list User) :
  sync_update own server (sync_update own server prev) = sync_update own server prev.
Proof.
  set (r := sync_update own server prev).
  assert (Hkeep : forallb (fun u => id_in u.(u_id) (map u_id (filter (fun user =>
                    negb (is_current own user.(u_id))) server)) || is_current own u.(u_id)) r
                  = true).
  { apply forallb_forall. intros u Hu. apply sync_update_In in Hu as [[_ Hk] | [[Hs Ho] _]].
    - exact Hk.
    - apply orb_true_iff. left. apply id_in_map_spec. exists u. split; [|reflexivity].
      apply filter_In. split; [exact Hs | now rewrite Ho]. }
  assert (Hadd : filter (fun u => negb (id_in u.(u_id) (map u_id r)))
                        (filter (fun user => negb (is_current own user.(u_id))) server) = []).
  { rewrite <- (filter_false (filter (fun user => negb (is_current own user.(u_id))) server)).
    apply filter_ext_in. intros s Hs. apply negb_false_iff.
    apply filter_In in Hs as [Hs Ho]. apply negb_true_iff in Ho.
    apply id_in_map_spec.
    destruct (id_in s.(u_id) (map u_id prev)) eqn:Ep.
    - apply id_in_map_spec in Ep as (p & Hp & Heq). exists p. split; [|exact Heq].
      apply sync_update_In. left. split; [exact Hp|].
      apply orb_true_iff. left. apply id_in_map_spec. exists s. split; [|congruence].
      apply filter_In. split; [exact Hs | now rewrite Ho].
    - exists s. split; [|reflexivity]. apply sync_update_In. right. tauto. }
  unfold sync_update at 1. cbv zeta.
  rewrite (forallb_filter_id _ _ Hkeep), Hadd. apply app_nil_r.
Qed.

(** Reconciliation keeps the participant ids of the roster pairwise distinct,
    provided the snapshot's are. *)
Theorem sync_update_keeps_ids_unique (own : option string) (server prev : list User) :
  NoDup (map u_id prev) -> NoDup (map u_id server) ->
  NoDup (map u_id (sync_update own server prev)).
Proof.
  intros Hp Hs. unfold sync_update. rewrite map_app. apply NoDup_app.
  - now apply NoDup_map_filter.
  - now apply NoDup_map_filter, NoDup_map_filter.
  - intros x Hx Hy.
    apply in_map_iff in Hx as (u & <- & Hu). apply filter_In in Hu as [Hu _].
    apply in_map_iff in Hy as (v & Hv & Hin). apply filter_In in Hin as [_ Hn].
    apply negb_true_iff in Hn.
    assert (id_in v.(u_id) (map u_id prev) = true)
      by (apply id_in_map_spec; exists u; split; [exact Hu | congruence]).
    congruence.
Qed.

Lemma sync_update_keeps_ids_unique_witness :
  (NoDup (map u_id [user_bob]) /\ NoDup (map u_id [user_me; user_bob']))
  /\ NoDup (map u_id (sync_update (Some "me") [user_me; user_bob'] [user_bob])).
Proof.
  assert (H1 : NoDup (map u_id [user_bob])) by (constructor; [intros [] | constructor]).
  assert (H2 : NoDup (map u_id [user_me; user_bob'])).
  { constructor; [simpl; intros [H | []]; discriminate |].
    constructor; [intros [] | constructor]. }
  split; [split; assumption |].
  exact (sync_update_keeps_ids_unique (Some "me") _ _ H1 H2).
Defined.

(** ** [joinChat] *)

(** [joinChat] issues its request only when connected and subscribed, and
    leaves the roster alone otherwise; a successful join leaves the joining
    participant exactly once in the roster, at its end, the others in their
    order; after a failed request the participant is not in the roster. *)
Theorem joinChat_roster (connected channel_ok response_ok : bool)
  (errorData_error : option string) (user : User) (prev : list User) :
  let r := joinChat connected channel_ok response_ok errorData_error user prev in
  (r.(j_requests) = [] <-> connected && channel_ok = false)
  /\ (r.(j_requests) = [] -> r.(j_roster) = prev)
  /\ (r.(j_result) = inl tt ->
      r.(j_roster) = filter (fun u => negb (String.eqb u.(u_id) user.(u_id))) prev ++ [user]
      /\ filter (fun u => String.eqb u.(u_id) user.(u_id)) r.(j_roster) = [user])
  /\ (r.(j_requests) <> [] -> r.(j_result) <> inl tt ->
      forall u, In u r.(j_roster) -> u.(u_id) <> user.(u_id)).
Proof.
  assert (Hf : forall l, existsb (fun u => String.eqb u.(u_id) user.(u_id))
                 (filter (fun u => negb (String.eqb u.(u_id) user.(u_id))) l) = false).
  { intros l. apply not_true_is_false. intros H. apply existsb_exists in H as (u & Hu & He).
    apply filter_In in Hu as [_ Hn]. rewrite He in Hn. discriminate. }
  assert (Hg : forall l, filter (fun u => String.eqb u.(u_id) user.(u_id))
                 (filter (fun u => negb (String.eqb u.(u_id) user.(u_id))) l) = []).
  { induction l as [|a l IH]; simpl; [reflexivity|].
    destruct (String.eqb (u_id a) (u_id user)) eqn:E; simpl; [exact IH|].
    rewrite E. exact IH. }
  intros r. unfold r, joinChat.
  destruct connected, channel_ok; simpl;
    try (repeat split; try reflexivity; try discriminate; intros; congruence).
  destruct response_ok; simpl.
  - rewrite Hf. simpl. repeat split; try discriminate.
    + rewrite filter_app, Hg. simpl. now rewrite String.eqb_refl.
    + intros _ H. now exfalso.
  - repeat split; try discriminate.
    intros _ _ u Hu He. apply filter_In in Hu as [_ Hn].
    rewrite He, String.eqb_refl in Hn. discriminate.
Qed.

(** ** Accounting of the transport singleton *)

Definition singleton_acct (st : Singleton) : Prop :=
  st.(created) = (st.(torn_down) + live st)%nat
  /\ (st.(globalInstance) = None -> st.(instanceUsers) = 0%nat)
  /\ (forall i, st.(globalInstance) = Some i -> S i.(inst_no) = st.(created)).

Lemma acct_cleanup (st : Singleton) : singleton_acct st -> singleton_acct (cleanupPusherInstance st).
Proof.
  unfold singleton_acct, cleanupPusherInstance, live. simpl.
  destruct (globalInstance st); intros (H1 & _ & _); repeat split; try discriminate; lia.
Qed.

Lemma acct_fresh (st : Singleton) :
  singleton_acct st -> st.(globalInstance) = None ->
  singleton_acct (snd (create_instance st)).
Proof.
  unfold singleton_acct, create_instance, live. simpl. intros (H1 & _ & _) Hn.
  rewrite Hn in H1. repeat split; try discriminate.
  - lia.
  - intros i Hi. inversion Hi. reflexivity.
Qed.

Lemma acct_getPusherInstance (config_ok : bool) (st : Singleton) :
  singleton_acct st -> singleton_acct (snd (getPusherInstance config_ok st)).
Proof.
  intros H. unfold getPusherInstance.
  destruct config_ok; simpl; [|exact H].
  destruct H as (H1 & H2 & H3). unfold live in H1.
  destruct (globalInstance st) as [i|] eqn:Hi.
  - destruct (healthy (conn i)); simpl.
    + unfold singleton_acct, live. simpl in *. repeat split; auto; try lia; discriminate.
    + unfold singleton_acct, live. simpl. repeat split; [lia | discriminate |].
      intros j Hj. inversion Hj. reflexivity.
  - unfold singleton_acct, live. simpl. repeat split; [lia | discriminate |].
    intros j Hj. inversion Hj. reflexivity.
Qed.

Lemma acct_release (production : bool) (st : Singleton) :
  singleton_acct st -> singleton_acct (releasePusherInstance production st).
Proof.
  unfold singleton_acct, releasePusherInstance, live. simpl.
  intros (H1 & H2 & H3). repeat split; auto. intros Hn. rewrite (H2 Hn). reflexivity.
Qed.

Lemma acct_timer (st : Singleton) : singleton_acct st -> singleton_acct (cleanup_timer_fires st).
Proof.
  intros H. unfold cleanup_timer_fires.
  destruct (Nat.eqb (instanceUsers st) 0); [now apply acct_cleanup | exact H].
Qed.

Lemma acct_advance (dt : Z) (st : Singleton) : singleton_acct st -> singleton_acct (advance dt st).
Proof.
  intros H. unfold advance.
  assert (Hf : forall (l : list Z) s, singleton_acct s ->
                 singleton_acct (fold_left (fun s _ => cleanup_timer_fires s) l s)).
  { induction l as [|d l IH]; intros s Hs; simpl; [exact Hs|]. apply IH, acct_timer, Hs. }
  specialize (Hf (filter (fun d => (d <=? clock st + dt)%Z) (timers st)) st H).
  destruct Hf as (H1 & H2 & H3). unfold singleton_acct, live in *. simpl. auto.
Qed.

Lemma acct_transport (s : ConnState) (st : Singleton) :
  singleton_acct st -> singleton_acct (transport_state s st).
Proof.
  unfold singleton_acct, transport_state, live. simpl.
  destruct (globalInstance st) as [i|]; simpl; intros (H1 & H2 & H3); repeat split; auto.
  - discriminate.
  - intros j Hj. inversion Hj. simpl. now apply H3.
Qed.

Lemma acct_bind (hs : list (string * string)) (st : Singleton) :
  singleton_acct st -> singleton_acct (bind_on_global hs st).
Proof.
  unfold singleton_acct, bind_on_global, live. simpl.
  destruct (globalInstance st) as [i|]; simpl; intros (H1 & H2 & H3); repeat split; auto.
  - discriminate.
  - intros j Hj. inversion Hj. simpl. now apply H3.
Qed.

Lemma acct_initializePusher (config_ok : bool) (h : HookRefs) (st : Singleton) :
  singleton_acct st -> singleton_acct (snd (fst (initializePusher config_ok h st))).
Proof.
  intros H. unfold initializePusher.
  destruct (componentMounted h); simpl; [|exact H].
  destruct (isInitialized h || isDisconnecting h); simpl; [exact H|].
  pose proof (acct_getPusherInstance config_ok st H) as Hg.
  destruct (getPusherInstance config_ok st) as [[[i [|]]|] st'] eqn:E; simpl in *;
    [exact Hg | now apply acct_bind | exact Hg].
Qed.

(** In every state the module reaches, every instance it created, except the
    live one, has been torn down; without a live instance the user count is
    zero; the live instance is the one created last. *)
Theorem singleton_accounting (config_ok production : bool) (st : Singleton) :
  reachable config_ok production st ->
  st.(created) = (st.(torn_down) + live st)%nat
  /\ (st.(globalInstance) = None -> st.(instanceUsers) = 0%nat)
  /\ (forall i, st.(globalInstance) = Some i -> S i.(inst_no) = st.(created)).
Proof.
  intros Hr. change (singleton_acct st).
  induction Hr as [| st ev Hr IH | h st Hr IH].
  - unfold singleton_acct, live. simpl. repeat split; discriminate.
  - destruct ev; simpl.
    + now apply acct_getPusherInstance.
    + now apply acct_release.
    + now apply acct_advance.
    + now apply acct_transport.
  - now apply acct_initializePusher.
Qed.

Lemma singleton_accounting_witness :
  let st := s_step true true (s_step true true singleton_init Acquire) (Transport Failed) in
  let st' := s_step true true st Acquire in
  reachable true true st'
  /\ (st'.(created) = (st'.(torn_down) + live st')%nat
      /\ (st'.(globalInstance) = None -> st'.(instanceUsers) = 0%nat)
      /\ (forall i, st'.(globalInstance) = Some i -> S i.(inst_no) = st'.(created))).
Proof.
  intros st st'.
  assert (H : reachable true true st')
    by (repeat apply reach_step; apply reach_init).
  split; [exact H | exact (singleton_accounting true true st' H)].
Defined.

(** ** The last release *)

Lemma fold_timers_at_zero (d : Z) (l : list Z) (st : Singleton) :
  st.(instanceUsers) = 0%nat ->
  (fold_left (fun s _ => cleanup_timer_fires s) (d :: l) st).(globalInstance) = None
  /\ (fold_left (fun s _ => cleanup_timer_fires s) (d :: l) st).(instanceUsers) = 0%nat
  /\ (fold_left (fun s _ => cleanup_timer_fires s) (d :: l) st).(torn_down)
     = (st.(torn_down) + live st)%nat
  /\ (fold_left (fun s _ => cleanup_timer_fires s) (d :: l) st).(created) = st.(created).
Proof.
  revert d st. induction l as [|d' l IH]; intros d st Hz;
    assert (Hc : cleanup_timer_fires st = cleanupPusherInstance st)
      by (unfold cleanup_timer_fires; now rewrite Hz).
  - simpl. rewrite Hc. unfold live, cleanupPusherInstance. simpl.
    destruct (globalInstance st); repeat split; lia.
  - change (fold_left (fun s _ => cleanup_timer_fires s) (d :: d' :: l) st)
      with (fold_left (fun s _ => cleanup_timer_fires s) (d' :: l) (cleanup_timer_fires st)).
    rewrite Hc.
    destruct (IH d' (cleanupPusherInstance st) eq_refl) as (H1 & H2 & H3 & H4).
    repeat split; auto.
    + rewrite H3. unfold live, cleanupPusherInstance. simpl.
      destruct (globalInstance st); simpl; lia.
Qed.

(** A release that brings the user count to zero tears the connection down
    once the grace delay has passed, if no acquisition came in between: the
    pending cleanups run, the live instance (if any) is torn down exactly
    once, and nothing new is created. *)
Theorem last_release_tears_down_after_delay (production : bool) (st : Singleton) :
  (st.(instanceUsers) <= 1)%nat ->
  let st' := advance (cleanup_delay production) (releasePusherInstance production st) in
  st'.(globalInstance) = None /\ st'.(instanceUsers) = 0%nat
  /\ st'.(torn_down) = (st.(torn_down) + live st)%nat /\ st'.(created) = st.(created).
Proof.
  intros Hu st'. unfold st', advance, releasePusherInstance. simpl.
  assert (Hz : (instanceUsers st - 1 = 0)%nat) by lia. rewrite Hz. simpl.
  rewrite filter_app. simpl. rewrite Z.leb_refl.
  destruct (filter (fun d => (d <=? clock st + cleanup_delay production)%Z) (timers st)
            ++ [(clock st + cleanup_delay production)%Z]) as [|d l] eqn:E.
  - apply app_eq_nil in E as [_ E]. discriminate.
  - destruct (fold_timers_at_zero d l
                (mkSingleton (globalInstance st) 0
                   (timers st ++ [(clock st + cleanup_delay production)%Z])
                   (clock st) (created st) (torn_down st)) eq_refl) as (H1 & H2 & H3 & H4).
    simpl in *. auto.
Qed.

Lemma last_release_tears_down_after_delay_witness :
  let st := s_step true true singleton_init Acquire in
  (st.(instanceUsers) <= 1)%nat
  /\ (let st' := advance (cleanup_delay true) (releasePusherInstance true st) in
      st'.(globalInstance) = None /\ st'.(instanceUsers) = 0%nat
      /\ st'.(torn_down) = (st.(torn_down) + live st)%nat /\ st'.(created) = st.(created)).
Proof.
  intros st. assert (H : (st.(instanceUsers) <= 1)%nat) by (vm_compute; lia).
  split; [exact H | exact (last_release_tears_down_after_delay true st H)].
Defined.

(** ** [cleanupPusher] against [initializePusher] *)

Lemma initializePusher_refs (config_ok : bool) (h : HookRefs) (st : Singleton) :
  let h' := fst (fst (initializePusher config_ok h st)) in
  h' = h \/ (h.(isInitialized) = false /\ h'.(isInitialized) = true).
Proof.
  unfold initializePusher.
  destruct (componentMounted h) eqn:Em; simpl; [|now left].
  destruct (isInitialized h) eqn:Ei; simpl; [now left|].
  destruct (isDisconnecting h); simpl; [now left|].
  destruct (getPusherInstance config_ok st) as [[[i [|]]|] st']; simpl;
    [right; now split | right; now split | now left].
Qed.

Definition hook_acct (hr : HookRun) : Prop :=
  (hr.(released) + (if hr.(hook).(isInitialized) then 1 else 0) <= hr.(acquired))%nat.

Lemma hook_step_acct (config_ok production : bool) (hr : HookRun) (ev : HookEvent) :
  hook_acct hr -> hook_acct (hook_step config_ok production hr ev).
Proof.
  unfold hook_acct. intros H. destruct ev; simpl.
  - pose proof (initializePusher_refs config_ok (hook hr) (hstate hr)) as Hh.
    destruct (initializePusher config_ok (hook hr) (hstate hr)) as [[h' st'] b]. simpl in *.
    destruct Hh as [-> | [E1 E2]].
    + destruct (isInitialized (hook hr)); simpl; lia.
    + rewrite E1, E2 in *. simpl. lia.
  - unfold cleanupPusher.
    destruct (isDisconnecting (hook hr) || negb (isInitialized (hook hr))) eqn:E; simpl;
      [lia|].
    apply orb_false_iff in E as [_ E]. apply negb_false_iff in E. rewrite E in H. lia.
  - unfold reconnect.
    destruct (isDisconnecting (hook hr)) eqn:Ed; simpl; [lia|].
    pose proof (initializePusher_refs config_ok
                  (mkHookRefs (componentMounted (hook hr)) false false) (hstate hr)) as Hh.
    destruct (initializePusher config_ok _ (hstate hr)) as [[h' st'] b]. simpl in *.
    destruct Hh as [-> | [_ E2]]; simpl.
    + destruct (isInitialized (hook hr)); lia.
    + rewrite E2. destruct (isInitialized (hook hr)); lia.
  - exact H.
  - exact H.
  - exact H.
Qed.

(** Whatever the order of [initializePusher], [cleanupPusher], [reconnect],
    flag resets, remounts and the other components' activity, a mounted
    [usePusher] never releases the shared instance more often than it
    acquired it; while it counts as initialized, one acquisition is not
    released yet. *)
Theorem cleanup_never_over_releases (config_ok production : bool) (st0 : Singleton)
  (evs : list HookEvent) :
  let hr := hook_run config_ok production st0 evs in
  (hr.(released) + (if hr.(hook).(isInitialized) then 1 else 0) <= hr.(acquired))%nat.
Proof.
  intros hr. change (hook_acct hr). unfold hr, hook_run.
  assert (H : forall l r, hook_acct r -> hook_acct (fold_left (hook_step config_ok production) l r)).
  { induction l as [|e l IH]; intros r Hr; simpl; [exact Hr|].
    apply IH, hook_step_acct, Hr. }
  apply H. unfold hook_acct. simpl. lia.
Qed.

(** [reconnect] on a live, connecting or connected instance acquires it once
    more without a release: the user count goes up by one, and the next
    [cleanupPusher] brings it back only to its value before the reconnect, so
    one acquisition of this hook is never released (the cleanup after it is
    skipped). *)
Theorem reconnect_leaks_a_user (production : bool) (h : HookRefs) (st : Singleton)
  (i : Instance) :
  h.(componentMounted) = true -> h.(isInitialized) = true -> h.(isDisconnecting) = false ->
  st.(globalInstance) = Some i -> healthy i.(conn) = true ->
  let '(h1, st1, bound) := reconnect true h st in
  let '(h2, st2, rel) := cleanupPusher production h1 st1 in
  bound = [] /\ st1.(instanceUsers) = S st.(instanceUsers)
  /\ rel = true /\ st2.(instanceUsers) = st.(instanceUsers)
  /\ st2.(globalInstance) = Some i
  /\ cleanupPusher production h2 st2 = (h2, st2, false).
Proof.
  intros Hm Hi Hd Hg Hh. unfold reconnect. rewrite Hd. unfold initializePusher. simpl.
  rewrite Hm. simpl. unfold getPusherInstance. simpl. rewrite Hg, Hh. simpl.
  unfold cleanupPusher. simpl. repeat split; try reflexivity.
  - simpl. lia.
Qed.

Lemma reconnect_leaks_a_user_witness :
  let st := s_step true false singleton_init Acquire in
  let h := mkHookRefs true true false in
  (h.(componentMounted) = true /\ h.(isInitialized) = true /\ h.(isDisconnecting) = false
   /\ st.(globalInstance) = Some (mkInstance 0 Connecting []) /\ healthy Connecting = true)
  /\ (let '(h1, st1, bound) := reconnect true h st in
      let '(h2, st2, rel) := cleanupPusher false h1 st1 in
      bound = [] /\ st1.(instanceUsers) = S st.(instanceUsers)
      /\ rel = true /\ st2.(instanceUsers) = st.(instanceUsers)
      /\ st2.(globalInstance) = Some (mkInstance 0 Connecting [])
      /\ cleanupPusher false h2 st2 = (h2, st2, false)).
Proof.
  intros st h. split; [repeat split |].
  exact (reconnect_leaks_a_user false h st (mkInstance 0 Connecting [])
           eq_refl eq_refl eq_refl eq_refl eq_refl).
Defined.

(** ** [MessageReliabilityManager] *)

Lemma map_get_app {V} (k : string) (m1 m2 : list (string * V)) :
  map_get k (m1 ++ m2) = match map_get k m1 with Some v => Some v | None => map_get k m2 end.
Proof.
  induction m1 as [|[k' v'] m1 IH]; simpl; [reflexivity|].
  destruct (String.eqb k' k); [reflexivity | exact IH].
Qed.

Lemma map_get_absent {V} (k : string) (m : list (string * V)) :
  existsb (fun p => String.eqb (fst p) k) m = false -> map_get k m = None.
Proof.
  induction m as [|[k' v'] m IH]; simpl; [reflexivity|].
  destruct (String.eqb k' k); simpl; [discriminate | exact IH].
Qed.

Lemma map_get_replace {V} (k : string) (v : V) (m : list (string * V)) :
  existsb (fun p => String.eqb (fst p) k) m = true ->
  map_get k (map (fun p => if String.eqb (fst p) k then (k, v) else p) m) = Some v.
Proof.
  induction m as [|[k' v'] m IH]; simpl; [discriminate|].
  destruct (String.eqb k' k) eqn:E; simpl.
  - rewrite String.eqb_refl. reflexivity.
  - rewrite E. exact IH.
Qed.

Lemma map_get_set_same {V} (k : string) (v : V) (m : list (string * V)) :
  map_get k (map_set k v m) = Some v.
Proof.
  unfold map_set. destruct (existsb _ m) eqn:E.
  - now apply map_get_replace.
  - rewrite map_get_app, (map_get_absent k m E). simpl. now rewrite String.eqb_refl.
Qed.

Lemma map_get_delete_same {V} (k : string) (m : list (string * V)) :
  map_get k (map_delete k m) = None.
Proof.
  unfold map_delete.
  induction m as [|[k' v'] m IH]; simpl; [reflexivity|].
  destruct (String.eqb k' k) eqn:E; simpl; [exact IH|].
  rewrite E. exact IH.
Qed.

Lemma markMessageFailed_tracked (cfg : MessageRetryConfig) (now : Z) (messageId err : string)
      (shouldRetry : bool) (r : Reliability) (s : MessageDeliveryStatus) :
  map_get messageId r.(pendingMessages) = Some s ->
  let retry := shouldRetry && Nat.ltb (S s.(attempts)) cfg.(maxRetries) in
  let r' := markMessageFailed cfg now messageId err shouldRetry r in
  map_get messageId r'.(pendingMessages)
    = Some (mkDeliveryStatus s.(md_messageId) (if retry then SRetrying else SFailed)
                             (S s.(attempts)) now (Some err))
  /\ map_get messageId r'.(retryTimeouts)
     = (if retry
        then Some (now + (if cfg.(exponentialBackoff)
                          then cfg.(retryDelay) * 2 ^ Z.of_nat s.(attempts)
                          else cfg.(retryDelay)))%Z
        else None)
  /\ r'.(deleteTimers) = r.(deleteTimers).
Proof.
  intros Hs retry r'. subst retry r'. unfold markMessageFailed. rewrite Hs.
  destruct (shouldRetry && Nat.ltb (S (attempts s)) (maxRetries cfg)); simpl.
  - unfold scheduleRetry, set_pending, clearRetryTimeout.
    cbn [pendingMessages retryTimeouts deleteTimers]. rewrite map_get_set_same.
    cbn [pendingMessages retryTimeouts deleteTimers attempts].
    replace (Z.of_nat (S (attempts s)) - 1)%Z with (Z.of_nat (attempts s)) by lia.
    rewrite !map_get_set_same. auto.
  - rewrite map_get_set_same, map_get_delete_same. auto.
Qed.

Lemma markMessageDelivered_tracked (now : Z) (messageId : string) (r : Reliability)
      (s : MessageDeliveryStatus) :
  map_get messageId r.(pendingMessages) = Some s ->
  let r' := markMessageDelivered now messageId r in
  map_get messageId r'.(pendingMessages)
    = Some (mkDeliveryStatus s.(md_messageId) SDelivered s.(attempts) s.(lastAttempt) s.(error))
  /\ map_get messageId r'.(retryTimeouts) = None
  /\ r'.(deleteTimers) = r.(deleteTimers) ++ [((now + 5000)%Z, messageId)].
Proof.
  intros Hs r'. subst r'. unfold markMessageDelivered. rewrite Hs. simpl.
  rewrite map_get_set_same, map_get_delete_same. auto.
Qed.

Lemma NoDup_map_fst_In {A B} (l : list (A * B)) (k : A) (a b : B) :
  NoDup (map fst l) -> In (k, a) l -> In (k, b) l -> a = b.
Proof.
  induction l as [|[k' c] l IH]; simpl; intros Hd Ha Hb; [contradiction|].
  inversion Hd as [|? ? Hn Hd']; subst.
  destruct Ha as [Ha | Ha], Hb as [Hb | Hb].
  - congruence.
  - inversion Ha; subst. exfalso. apply Hn. change k with (fst (k, b)). now apply in_map.
  - inversion Hb; subst. exfalso. apply Hn. change k with (fst (k, a)). now apply in_map.
  - now apply IH.
Qed.

Lemma filter_filter_and {A} (f g : A -> bool) (l : list A) :
  filter f (filter g l) = filter (fun x => g x && f x) l.
Proof.
  induction l as [|x l IH]; simpl; [reflexivity|].
  destruct (g x); simpl; [destruct (f x)|]; rewrite ?IH; reflexivity.
Qed.

Definition key_in (k : string) (L : list string) : bool :=
  existsb (fun k' => String.eqb k k') L.

Lemma fold_stopTracking (L : list string) (r : Reliability) :
  fold_left (fun r messageId => stopTracking messageId r) L r
  = mkReliability (filter (fun p => negb (key_in (fst p) L)) r.(pendingMessages))
                  (filter (fun p => negb (key_in (fst p) L)) r.(retryTimeouts))
                  r.(deleteTimers).
Proof.
  revert r. induction L as [|a L IH]; intros r; simpl.
  - rewrite !filter_true. now destruct r.
  - rewrite IH. simpl. unfold map_delete. rewrite !filter_filter_and.
    f_equal; apply filter_ext; intros [k v]; simpl; unfold key_in; simpl;
      rewrite negb_orb; reflexivity.
Qed.

Lemma key_in_spec (k : string) (L : list string) : key_in k L = true <-> In k L.
Proof.
  unfold key_in. rewrite existsb_exists. split.
  - intros [k' [Hk' E]]. apply String.eqb_eq in E. now subst.
  - intros H. exists k. split; [exact H | apply String.eqb_refl].
Qed.

Lemma status_count (l : list MessageDeliveryStatus) :
  length l
  = (length (filter (fun m => status_eqb m.(status) SPending) l)
     + length (filter (fun m => status_eqb m.(status) SDelivered) l)
     + length (filter (fun m => status_eqb m.(status) SFailed) l)
     + length (filter (fun m => status_eqb m.(status) SRetrying) l))%nat.
Proof.
  induction l as [|m l IH]; simpl; [reflexivity|].
  destruct (status m); simpl; lia.
Qed.

(** Starting the tracking of a message and reporting three retryable failures
    with the default configuration (3 retries, 1 s, exponential backoff): the
    first two failures leave it [retrying] with a retry timer due 1 s and 2 s
    after the failure; the third marks it [failed] and leaves no retry timer. *)
Theorem default_retry_schedule (r : Reliability) (messageId e1 e2 e3 : string)
        (t0 t1 t2 t3 : Z) :
  let r0 := startMessageDelivery t0 messageId r in
  let r1 := markMessageFailed default_config t1 messageId e1 true r0 in
  let r2 := markMessageFailed default_config t2 messageId e2 true r1 in
  let r3 := markMessageFailed default_config t3 messageId e3 true r2 in
  map_get messageId r1.(pendingMessages)
    = Some (mkDeliveryStatus messageId SRetrying 1 t1 (Some e1))
  /\ map_get messageId r1.(retryTimeouts) = Some (t1 + 1000)%Z
  /\ map_get messageId r2.(pendingMessages)
     = Some (mkDeliveryStatus messageId SRetrying 2 t2 (Some e2))
  /\ map_get messageId r2.(retryTimeouts) = Some (t2 + 2000)%Z
  /\ map_get messageId r3.(pendingMessages)
     = Some (mkDeliveryStatus messageId SFailed 3 t3 (Some e3))
  /\ map_get messageId r3.(retryTimeouts) = None.
Proof.
  intros r0 r1 r2 r3.
  assert (H0 : map_get messageId r0.(pendingMessages)
               = Some (mkDeliveryStatus messageId SPending 0 t0 None))
    by apply map_get_set_same.
  destruct (markMessageFailed_tracked default_config t1 messageId e1 true r0 _ H0)
    as [H1 [T1 _]].
  destruct (markMessageFailed_tracked default_config t2 messageId e2 true r1 _ H1)
    as [H2 [T2 _]].
  destruct (markMessageFailed_tracked default_config t3 messageId e3 true r2 _ H2)
    as [H3 [T3 _]].
  simpl in *. fold r1 r2 r3 in H1, T1, H2, T2, H3, T3.
  repeat split; assumption.
Qed.

(** A failure report for a tracked message increments its attempt count,
    records the time and the error, and: when [shouldRetry] holds and the new
    count is below [maxRetries], sets it [retrying] with one retry timer due
    [retryDelay * 2^(attempts - 1)] later ([retryDelay] without exponential
    backoff); otherwise sets it [failed] and cancels any retry timer.  The
    delivered-record cleanups are untouched. *)
Theorem markMessageFailed_outcome (cfg : MessageRetryConfig) (now : Z) (messageId err : string)
        (shouldRetry : bool) (r : Reliability) (s : MessageDeliveryStatus) :
  map_get messageId r.(pendingMessages) = Some s ->
  let retry := shouldRetry && Nat.ltb (S s.(attempts)) cfg.(maxRetries) in
  let r' := markMessageFailed cfg now messageId err shouldRetry r in
  map_get messageId r'.(pendingMessages)
    = Some (mkDeliveryStatus s.(md_messageId) (if retry then SRetrying else SFailed)
                             (S s.(attempts)) now (Some err))
  /\ map_get messageId r'.(retryTimeouts)
     = (if retry
        then Some (now + (if cfg.(exponentialBackoff)
                          then cfg.(retryDelay) * 2 ^ Z.of_nat s.(attempts)
                          else cfg.(retryDelay)))%Z
        else None)
  /\ r'.(deleteTimers) = r.(deleteTimers).
Proof. apply markMessageFailed_tracked. Qed.

Lemma markMessageFailed_outcome_witness :
  let r := startMessageDelivery 0 "m1" (mkReliability [] [] []) in
  map_get "m1" r.(pendingMessages) = Some (mkDeliveryStatus "m1" SPending 0 0 None)
  /\ (let retry := false && Nat.ltb 1 (maxRetries default_config) in
      let r' := markMessageFailed default_config 10 "m1" "e" false r in
      map_get "m1" r'.(pendingMessages)
        = Some (mkDeliveryStatus "m1" (if retry then SRetrying else SFailed) 1 10 (Some "e"))
      /\ map_get "m1" r'.(retryTimeouts)
         = (if retry then Some (10 + 1000 * 2 ^ Z.of_nat 0)%Z else None)
      /\ r'.(deleteTimers) = r.(deleteTimers)).
Proof.
  intros r. assert (H : map_get "m1" r.(pendingMessages)
                        = Some (mkDeliveryStatus "m1" SPending 0 0 None)) by reflexivity.
  split; [exact H|].
  exact (markMessageFailed_outcome default_config 10 "m1" "e" false r _ H).
Defined.



(** Delivery of a tracked message marks it [delivered] (attempts, last attempt
    and error kept), cancels its pending retry timer and queues the removal
    of its record 5 s later. *)
Theorem delivered_cancels_retry (now : Z) (messageId : string) (r : Reliability)
        (s : MessageDeliveryStatus) :
  map_get messageId r.(pendingMessages) = Some s ->
  let r' := markMessageDelivered now messageId r in
  map_get messageId r'.(pendingMessages)
    = Some (mkDeliveryStatus s.(md_messageId) SDelivered s.(attempts) s.(lastAttempt) s.(error))
  /\ map_get messageId r'.(retryTimeouts) = None
  /\ r'.(deleteTimers) = r.(deleteTimers) ++ [((now + 5000)%Z, messageId)].
Proof. apply markMessageDelivered_tracked. Qed.

Lemma delivered_cancels_retry_witness :
  let r := markMessageFailed default_config 10 "m1" "e" true
             (startMessageDelivery 0 "m1" (mkReliability [] [] [])) in
  (map_get "m1" r.(pendingMessages) = Some (mkDeliveryStatus "m1" SRetrying 1 10 (Some "e"))
   /\ map_get "m1" r.(retryTimeouts) = Some 1010%Z)
  /\ (let r' := markMessageDelivered 20 "m1" r in
      map_get "m1" r'.(pendingMessages)
        = Some (mkDeliveryStatus "m1" SDelivered 1 10 (Some "e"))
      /\ map_get "m1" r'.(retryTimeouts) = None
      /\ r'.(deleteTimers) = r.(deleteTimers) ++ [((20 + 5000)%Z, "m1")]).
Proof.
  intros r. assert (H : map_get "m1" r.(pendingMessages)
                        = Some (mkDeliveryStatus "m1" SRetrying 1 10 (Some "e"))) by reflexivity.
  split; [split; [exact H | reflexivity]|].
  exact (delivered_cancels_retry 20 "m1" r _ H).
Defined.

(** [cleanup()] keeps exactly the tracked messages whose last attempt is at
    most an hour old, and leaves no retry timer of a message it dropped (the
    map's keys being distinct). *)
Theorem reliability_cleanup_spec (now : Z) (r : Reliability) :
  NoDup (map fst r.(pendingMessages)) ->
  let r' := reliability_cleanup now r in
  (forall k s, In (k, s) r'.(pendingMessages)
               <-> In (k, s) r.(pendingMessages) /\ (now - 3600000 <= s.(lastAttempt))%Z)
  /\ (forall k d, In (k, d) r'.(retryTimeouts) ->
        In (k, d) r.(retryTimeouts)
        /\ forall s, In (k, s) r.(pendingMessages) -> (now - 3600000 <= s.(lastAttempt))%Z)
  /\ r'.(deleteTimers) = r.(deleteTimers).
Proof.
  intros Hd r'. subst r'. unfold reliability_cleanup. rewrite fold_stopTracking. simpl.
  set (L := map fst (filter _ (pendingMessages r))).
  assert (HL : forall k, In k L <-> exists s, In (k, s) (pendingMessages r)
                                        /\ (lastAttempt s < now - 3600000)%Z).
  { intros k. subst L. rewrite in_map_iff. split.
    - intros [[k' s] [Hk Hin]]. simpl in Hk. subst k'.
      apply filter_In in Hin as [Hin Hs]. simpl in Hs. apply Z.ltb_lt in Hs.
      exists s. split; [exact Hin | lia].
    - intros [s [Hin Hs]]. exists (k, s). split; [reflexivity|].
      apply filter_In. split; [exact Hin|]. simpl. apply Z.ltb_lt. lia. }
  split; [|split; [|reflexivity]].
  - intros k s. rewrite filter_In. simpl. split.
    + intros [Hin Hk]. split; [exact Hin|].
      destruct (Z.le_gt_cases (now - 3600000) (lastAttempt s)) as [Hle|Hgt]; [exact Hle|].
      exfalso. assert (Hk' : key_in k L = true).
      { apply key_in_spec, HL. exists s. split; [exact Hin | lia]. }
      rewrite Hk' in Hk. discriminate.
    + intros [Hin Hs]. split; [exact Hin|].
      destruct (key_in k L) eqn:E; [|reflexivity]. exfalso.
      apply key_in_spec, HL in E as [s' [Hin' Hs']].
      rewrite (NoDup_map_fst_In _ k s s' Hd Hin Hin') in Hs. lia.
  - intros k d Hin. apply filter_In in Hin as [Hin Hk]. simpl in Hk.
    split; [exact Hin|]. intros s Hs.
    destruct (Z.le_gt_cases (now - 3600000) (lastAttempt s)) as [Hle|Hgt]; [exact Hle|].
    exfalso. assert (Hk' : key_in k L = true).
    { apply key_in_spec, HL. exists s. split; [exact Hs | lia]. }
    rewrite Hk' in Hk. discriminate.
Qed.

Lemma reliability_cleanup_spec_witness :
  let r := markMessageFailed default_config 5000000 "m2" "e" true
             (startMessageDelivery 5000000 "m2"
                (startMessageDelivery 0 "m1" (mkReliability [] [] []))) in
  NoDup (map fst r.(pendingMessages))
  /\ (let r' := reliability_cleanup 5000000 r in
      (forall k s, In (k, s) r'.(pendingMessages)
                   <-> In (k, s) r.(pendingMessages) /\ (5000000 - 3600000 <= s.(lastAttempt))%Z)
      /\ (forall k d, In (k, d) r'.(retryTimeouts) ->
            In (k, d) r.(retryTimeouts)
            /\ forall s, In (k, s) r.(pendingMessages) -> (5000000 - 3600000 <= s.(lastAttempt))%Z)
      /\ r'.(deleteTimers) = r.(deleteTimers)).
Proof.
  intros r. assert (H : NoDup (map fst r.(pendingMessages))).
  { simpl. constructor; [simpl; intros [H|[]]; discriminate|].
    constructor; [intros []|constructor]. }
  split; [exact H | exact (reliability_cleanup_spec 5000000 r H)].
Defined.

(** The four per-status counts of [getStats()] add up to the total. *)
Theorem getStats_partition (r : Reliability) :
  let s := getStats r in
  s.(total) = (s.(st_pending) + s.(st_delivered) + s.(st_failed) + s.(st_retrying))%nat.
Proof. apply status_count. Qed.

(** ** The typing requests of the client *)

Lemma snoc_eq_split {A} (l l1 l2 : list A) (x y : A) :
  l ++ [x] = l1 ++ y :: l2 ->
  (l2 = [] /\ l1 = l /\ y = x) \/ (exists l2', l2 = l2' ++ [x] /\ l = l1 ++ y :: l2').
Proof.
  destruct l2 as [|z l2'] using rev_ind; intros H.
  - left. apply app_inj_tail in H as [-> ->]. auto.
  - right. rewrite app_comm_cons, app_assoc in H.
    apply app_inj_tail in H as [-> ->]. eauto.
Qed.

Definition stop_follows_start (l : list string) : Prop :=
  forall l1 l2, l = l1 ++ "stop" :: l2 -> exists l0, l1 = l0 ++ ["start"].

Definition typing_client_inv (c : TypingClient) : Prop :=
  (c.(isTypingRef) = true -> exists l0, c.(typingRequests) = l0 ++ ["start"])
  /\ stop_follows_start c.(typingRequests).

Lemma stop_follows_start_snoc_start (l : list string) :
  stop_follows_start l -> stop_follows_start (l ++ ["start"]).
Proof.
  intros H l1 l2 E. apply snoc_eq_split in E as [[_ [_ E]] | [l2' [_ E]]];
    [discriminate | exact (H _ _ E)].
Qed.

Lemma stop_follows_start_snoc_stop (l l0 : list string) :
  l = l0 ++ ["start"] -> stop_follows_start l -> stop_follows_start (l ++ ["stop"]).
Proof.
  intros Hl H l1 l2 E. apply snoc_eq_split in E as [[_ [-> _]] | [l2' [_ E]]];
    [eauto | exact (H _ _ E)].
Qed.

Lemma stopTyping_inv (u k : bool) (c : TypingClient) :
  typing_client_inv c -> typing_client_inv (stopTyping u k c).
Proof.
  intros Hc. pose proof Hc as [Ht Hl]. unfold stopTyping.
  destruct u, k, (isTypingRef c) eqn:E; simpl; try exact Hc.
  split; [discriminate|]. destruct (Ht eq_refl) as [l0 Hl0].
  exact (stop_follows_start_snoc_stop _ _ Hl0 Hl).
Qed.

Lemma typing_client_step_inv (c : TypingClient) (ev : TypingClientEvent) :
  typing_client_inv c -> typing_client_inv (typing_client_step c ev).
Proof.
  intros Hc. destruct ev as [u k | ok now | u k | now u k]; simpl.
  - pose proof Hc as [Ht Hl]. unfold startTyping.
    destruct u, k, (isTypingRef c); simpl; try exact Hc.
    split; [intros _; simpl; eauto | now apply stop_follows_start_snoc_start].
  - destruct Hc as [Ht Hl]. unfold startTyping_settle.
    destruct (startsInFlight c), ok; simpl; split; try assumption; discriminate.
  - now apply stopTyping_inv.
  - destruct (typingTimeoutRef c) as [due|]; [|exact Hc].
    destruct (due <=? now)%Z; [|exact Hc].
    apply stopTyping_inv. exact Hc.
Qed.

(** Whatever the order of the calls, the settling of the start requests and
    the auto-stop timeouts, every [stop] request the client sends directly
    follows a [start] request: it never sends [stop] first, nor two [stop]s
    in a row. *)
Theorem typing_stop_follows_start (evs : list TypingClientEvent) :
  forall l1 l2, (typing_client_run evs).(typingRequests) = l1 ++ "stop" :: l2 ->
  exists l0, l1 = l0 ++ ["start"].
Proof.
  assert (H : forall c, typing_client_inv c ->
                typing_client_inv (fold_left typing_client_step evs c)).
  { induction evs as [|ev evs IH]; intros c Hc; simpl; [exact Hc|].
    apply IH, typing_client_step_inv, Hc. }
  apply H. split; [discriminate|]. intros l1 l2 E. destruct l1; discriminate.
Qed.

(** ** Deduplication of background notifications *)

Lemma map_get_In {V} (k : string) (v : V) (m : list (string * V)) :
  map_get k m = Some v -> In (k, v) m.
Proof.
  induction m as [|[k' v'] m IH]; simpl; [discriminate|].
  destruct (String.eqb k' k) eqn:E; intros H; [|right; exact (IH H)].
  apply String.eqb_eq in E. inversion H. subst. now left.
Qed.

Lemma ForallOrdPairs_app_cons {A} (R : A -> A -> Prop) (l1 l2 : list A) (a : A) :
  ForallOrdPairs R (l1 ++ a :: l2) -> Forall (R a) l2.
Proof.
  induction l1 as [|b l1 IH]; simpl; intros H; inversion H; subst; auto.
Qed.

Definition notif_inv (st : NotifDedupe) (clock : Z) : Prop :=
  (forall i, In i (map fst st.(removalTimers)) -> In i st.(recentNotificationIds))
  /\ (forall i t, In (i, t) st.(allowed) -> (clock < t + 10000)%Z ->
        In i st.(recentNotificationIds)
        /\ forall due, In (i, due) st.(removalTimers) -> (t + 10000 <= due)%Z)
  /\ ForallOrdPairs (fun a b => fst a = fst b -> (snd a + 10000 <= snd b)%Z) st.(allowed).

Lemma notif_inv_holds (st : NotifDedupe) (clock : Z) :
  notif_reachable st clock -> notif_inv st clock.
Proof.
  induction 1 as [t | st t now mid Hr IH Ht | st t now mid Hr IH Ht].
  - split; [intros i []|]. split; [intros i t' []|constructor].
  - destruct IH as [Hb [Ha Hc]]. unfold isNotificationAlreadyShown.
    destruct (existsb (String.eqb mid) (recentNotificationIds st)) eqn:E; simpl.
    + split; [exact Hb|]. split; [|exact Hc].
      intros i t' Hi Hlt. apply Ha; [exact Hi | lia].
    + assert (Hn : ~ In mid (recentNotificationIds st)).
      { intros Hin. assert (existsb (String.eqb mid) (recentNotificationIds st) = true)
          by (apply existsb_exists; exists mid; split; [exact Hin | apply String.eqb_refl]).
        congruence. }
      split; [|split].
      * intros i Hi. cbn in Hi |- *. rewrite map_app in Hi. apply in_app_or in Hi as [Hi | [Hi | []]];
          apply in_or_app; [left; exact (Hb i Hi) | right; left; exact Hi].
      * intros i t' Hi Hlt. cbn in Hi |- *. apply in_app_or in Hi as [Hi | [Hi | []]].
        -- destruct (Ha i t' Hi ltac:(lia)) as [Hin Hd]. split; [apply in_or_app; now left|].
           intros due Hdue. apply in_app_or in Hdue as [Hdue | [Hdue | []]]; [exact (Hd _ Hdue)|].
           inversion Hdue; subst. contradiction.
        -- inversion Hi; subst. split; [apply in_or_app; right; now left|].
           intros due Hdue. apply in_app_or in Hdue as [Hdue | [Hdue | []]].
           ++ exfalso. apply Hn, Hb. change i with (fst (i, due)). now apply in_map.
           ++ inversion Hdue; subst. lia.
      * cbn. apply ForallOrdPairs_app_single; [exact Hc|].
        apply Forall_forall. intros [i t'] Hi. simpl. intros ->.
        destruct (Z.le_gt_cases (t' + 10000) now) as [Hle|Hgt]; [exact Hle|].
        exfalso. apply Hn. apply (Ha _ t' Hi). lia.
  - destruct IH as [Hb [Ha Hc]]. unfold fire_removal.
    destruct (map_get mid (removalTimers st)) as [due|] eqn:Eg;
      [destruct (due <=? now)%Z eqn:Ed|]; simpl.
    + apply Z.leb_le in Ed. apply map_get_In in Eg.
      split; [|split; [|exact Hc]].
      * intros i Hi. cbn in Hi |- *. unfold map_delete in Hi. apply in_map_iff in Hi as [[i' d] [Hi Hin]].
        simpl in Hi. subst i'. apply filter_In in Hin as [Hin Hne].
        apply filter_In. split; [apply Hb; change i with (fst (i, d)); now apply in_map|].
        exact Hne.
      * intros i t' Hi Hlt. cbn in Hi |- *. destruct (Ha i t' Hi ltac:(lia)) as [Hin Hd].
        destruct (String.eqb i mid) eqn:E.
        -- apply String.eqb_eq in E. subst i. specialize (Hd _ Eg). lia.
        -- split; [apply filter_In; rewrite E; auto|].
           intros d Hdi. unfold map_delete in Hdi. apply filter_In in Hdi as [Hdi _].
           exact (Hd _ Hdi).
    + split; [exact Hb|]. split; [|exact Hc]. intros i t' Hi Hlt. apply Ha; [exact Hi | lia].
    + split; [exact Hb|]. split; [|exact Hc]. intros i t' Hi Hlt. apply Ha; [exact Hi | lia].
Qed.

(** [isNotificationAlreadyShown] lets a notification of a message id through
    at most once every 10 s: two checks of one id that answered [false] are
    at least 10 s apart, and after one such check every check of that id in
    the next 10 s answers [true], however the removal timeouts are
    scheduled (they never fire early). *)
Theorem notification_once_per_10s (st : NotifDedupe) (clock : Z) :
  notif_reachable st clock ->
  (forall l1 l2 messageId t1 t2,
      st.(allowed) = l1 ++ (messageId, t1) :: l2 -> In (messageId, t2) l2 ->
      (t1 + 10000 <= t2)%Z)
  /\ (forall messageId t now,
      In (messageId, t) st.(allowed) -> (clock <= now < t + 10000)%Z ->
      fst (isNotificationAlreadyShown now messageId st) = true).
Proof.
  intros Hr. destruct (notif_inv_holds st clock Hr) as [_ [Ha Hc]]. split.
  - intros l1 l2 mid t1 t2 E Hin. rewrite E in Hc.
    apply ForallOrdPairs_app_cons in Hc.
    exact (proj1 (Forall_forall _ _) Hc _ Hin eq_refl).
  - intros mid t now Hin Hnow. destruct (Ha mid t Hin ltac:(lia)) as [Hrec _].
    unfold isNotificationAlreadyShown.
    replace (existsb (String.eqb mid) (recentNotificationIds st)) with true; [reflexivity|].
    symmetry. apply existsb_exists. exists mid. split; [exact Hrec | apply String.eqb_refl].
Qed.

Lemma notification_once_per_10s_witness :
  let st := fire_removal 12000 "m1"
              (snd (isNotificationAlreadyShown 2000 "m1"
                 (snd (isNotificationAlreadyShown 1000 "m1" (mkNotifDedupe [] [] []))))) in
  notif_reachable st 12000
  /\ ((forall l1 l2 messageId t1 t2,
         st.(allowed) = l1 ++ (messageId, t1) :: l2 -> In (messageId, t2) l2 ->
         (t1 + 10000 <= t2)%Z)
      /\ (forall messageId t now,
          In (messageId, t) st.(allowed) -> (12000 <= now < t + 10000)%Z ->
          fst (isNotificationAlreadyShown now messageId st) = true)).
Proof.
  intros st. assert (H : notif_reachable st 12000).
  { apply (notif_fire _ 2000); [|lia]. apply (notif_check _ 1000); [|lia].
    apply (notif_check _ 0); [apply notif_init | lia]. }
  split; [exact H | exact (notification_once_per_10s st 12000 H)].
Defined.

Lemma typing_stop_follows_start_witness :
  let evs := [CStartTyping true true; CStartSettled true 100; CStopTyping true true] in
  (typing_client_run evs).(typingRequests) = ["start"] ++ "stop" :: []
  /\ exists l0, ["start"] = l0 ++ ["start"].
Proof.
  intros evs. assert (H : (typing_client_run evs).(typingRequests) = ["start"] ++ "stop" :: [])
    by reflexivity.
  split; [exact H | exact (typing_stop_follows_start evs ["start"] [] H)].
Defined.
